(** * Ceremony data-clock consensus engine: sync handlers

    A shallow embedding of the three pub/sub handlers of
    [CeremonyDataClockConsensusEngine] found in [node/app/node.go]:
    [handleClockFramesResponse], [handleProvingKeyRequest] and
    [handleClockFramesRequest].

    The engine is a Go struct mutated in place; the handlers call into a
    pub/sub layer, a clock store, a key store and a pairing-curve library.
    The embedding threads an explicit [Engine] state through a small
    state-and-error monad; the collaborators that the handlers only consume
    through an interface are taken as parameters (type classes below). *)

From Stdlib Require Import ZArith Lia.
From Stdlib Require Strings.Byte.
From stdpp Require Import base numbers list option gmap strings sorting.
From Equations Require Import Equations.

Local Open Scope Z_scope.

(** ** Machine integers *)

Definition two64 : Z := 18446744073709551616.
Definition two63 : Z := 9223372036854775808.

(** [uint64] arithmetic wraps modulo [2^64]. *)
Definition u64 (x : Z) : Z := x mod two64.

(** Go's [int] on a 64-bit target: two's complement, wraps. *)
Definition int64 (x : Z) : Z := (x + two63) mod two64 - two63.

(** ** Byte strings *)

Definition bytes : Type := list Byte.byte.

#[global] Instance byte_eq_dec : EqDecision Byte.byte := Byte.byte_eq_dec.

#[global] Instance byte_countable : Countable Byte.byte :=
  inj_countable Byte.to_N Byte.of_N Byte.of_to_N.

(** [bytes.Equal]: a nil slice and an empty slice are equal, so lists are a
    faithful carrier. *)
Definition bytes_Equal (a b : bytes) : bool := bool_decide (a = b).

(** ** Errors

    [github.com/pkg/errors]: [errors.New], [errors.Wrap] and [errors.Is]
    (which walks the chain of wrapped causes). [ErrNotFound] is
    [store.ErrNotFound]; [ErrExternal] stands for any other error value a
    collaborator hands back. *)

Inductive error : Type :=
| ErrNotFound
| ErrExternal (code : nat)
| ErrNew (msg : string)
| ErrWrap (cause : error) (msg : string).

Fixpoint errors_Is_NotFound (e : error) : bool :=
  match e with
  | ErrNotFound => true
  | ErrWrap cause _ => errors_Is_NotFound cause
  | _ => false
  end.

(** [errors.Is(err, store.ErrNotFound)] on a possibly nil [err]. *)
Definition errors_Is_NotFound_opt (e : option error) : bool :=
  match e with
  | Some e => errors_Is_NotFound e
  | None => false
  end.

(** A Go call returning [(value, error)]. *)
Inductive result (A : Type) : Type :=
| Val (a : A)
| Fail (e : error).
Arguments Val {A} a.
Arguments Fail {A} e.

(** ** Wire types (package [protobufs]) *)

Record Any := { any_TypeUrl : string; any_Value : bytes }.

Record InclusionCommitment := {
  TypeUrl : string;
  Data : bytes;
  Commitment : bytes
}.

Record InclusionAggregateProof := {
  InclusionCommitments : list InclusionCommitment;
  Proof_ : bytes
}.

Record ClockFrame := {
  Filter : bytes;
  FrameNumber : Z;
  ParentSelector : bytes;
  Input : bytes;
  AggregateProofs : list InclusionAggregateProof
}.

Record ClockFramesResponse := {
  rsp_Filter : bytes;
  rsp_FromFrameNumber : Z;
  rsp_ToFrameNumber : Z;
  ClockFrames : list ClockFrame
}.

Record ClockFramesRequest := {
  req_Filter : bytes;
  FromFrameNumber : Z;
  ToFrameNumber : Z
}.

Record ProvingKeyRequest := { ProvingKeyBytes : bytes }.

Record ProvingKeyAnnouncement := { pka_bytes : bytes }.

(** What [publishMessage] is handed. The proving-key handler passes a
    possibly nil [*ProvingKeyAnnouncement]. *)
Inductive Message : Type :=
| MsgClockFrame (f : ClockFrame)
| MsgClockFramesResponse (r : ClockFramesResponse)
| MsgProvingKeyAnnouncement (p : option ProvingKeyAnnouncement).

(** ** Prover trie *)

(** Modelled from the spec: [tries.RollingFrecencyCritbitTrie] is not part
    of the sources at hand. The spec (section 4.5) gives it as a mapping
    from prover identity to [(earliest_frame, latest_frame, count)], all
    [u64], with [get] returning [count = 0] on absence and [add] inserting
    or updating with [earliest := min], [latest := max], [count += 1].
    Serialisation is required to round-trip exactly; the serialised form is
    kept abstract as the list of entries. *)
Module Trie.

Definition t : Type := gmap bytes (Z * Z * Z).

Definition Get (tr : t) (key : bytes) : Z * Z * Z :=
  match tr !! key with
  | Some v => v
  | None => (0, 0, 0)
  end.

Definition Add (tr : t) (key : bytes) (frameNumber : Z) : t :=
  match tr !! key with
  | Some (earliest, latest, count) =>
      <[key := (Z.min earliest frameNumber,
                Z.max latest frameNumber,
                u64 (count + 1))]> tr
  | None => <[key := (frameNumber, frameNumber, 1)]> tr
  end.

Definition serialized : Type := list (bytes * (Z * Z * Z)).

Definition Serialize (tr : t) : serialized := map_to_list tr.

Definition Deserialize (raw : serialized) : t := list_to_map raw.

End Trie.

(** ** Engine and world state *)

Inductive SyncStatus : Type :=
| SyncStatusNotSyncing
| SyncStatusAwaitingResponse
| SyncStatusSynchronizing.

(** A row of the candidate index of the clock store, as
    [PutCandidateDataClockFrame] receives it. *)
Record CandidateRow := {
  row_parentSelector : bytes;
  row_distance : bytes;
  row_selector : bytes;
  row_frame : ClockFrame
}.

(** The fields of [CeremonyDataClockConsensusEngine] the handlers touch,
    followed by the observable state of its collaborators: the candidate
    rows committed to the clock store, the pub/sub log and subscriptions,
    and the number of candidate iterators currently open. *)
Record Engine := {
  filter : bytes;
  syncingTarget : bytes;
  syncingStatus : SyncStatus;
  frameProverTrie : Trie.t;
  frameSeenProverTrie : Trie.t;
  frame : Z;
  latestFrameReceived : Z;
  lastFrameReceivedAt : Z;
  candidates : list CandidateRow;
  published : list (bytes * Message);
  subscriptions : list bytes;
  openIterators : nat
}.

Definition set_syncingStatus (v : SyncStatus) (e : Engine) : Engine :=
  {| filter := filter e; syncingTarget := syncingTarget e;
     syncingStatus := v;
     frameProverTrie := frameProverTrie e;
     frameSeenProverTrie := frameSeenProverTrie e;
     frame := frame e; latestFrameReceived := latestFrameReceived e;
     lastFrameReceivedAt := lastFrameReceivedAt e;
     candidates := candidates e; published := published e;
     subscriptions := subscriptions e; openIterators := openIterators e |}.

Definition set_frameSeenProverTrie (v : Trie.t) (e : Engine) : Engine :=
  {| filter := filter e; syncingTarget := syncingTarget e;
     syncingStatus := syncingStatus e;
     frameProverTrie := frameProverTrie e;
     frameSeenProverTrie := v;
     frame := frame e; latestFrameReceived := latestFrameReceived e;
     lastFrameReceivedAt := lastFrameReceivedAt e;
     candidates := candidates e; published := published e;
     subscriptions := subscriptions e; openIterators := openIterators e |}.

Definition set_received (n at_ : Z) (e : Engine) : Engine :=
  {| filter := filter e; syncingTarget := syncingTarget e;
     syncingStatus := syncingStatus e;
     frameProverTrie := frameProverTrie e;
     frameSeenProverTrie := frameSeenProverTrie e;
     frame := frame e; latestFrameReceived := n;
     lastFrameReceivedAt := at_;
     candidates := candidates e; published := published e;
     subscriptions := subscriptions e; openIterators := openIterators e |}.

Definition set_candidates (v : list CandidateRow) (e : Engine) : Engine :=
  {| filter := filter e; syncingTarget := syncingTarget e;
     syncingStatus := syncingStatus e;
     frameProverTrie := frameProverTrie e;
     frameSeenProverTrie := frameSeenProverTrie e;
     frame := frame e; latestFrameReceived := latestFrameReceived e;
     lastFrameReceivedAt := lastFrameReceivedAt e;
     candidates := v; published := published e;
     subscriptions := subscriptions e; openIterators := openIterators e |}.

Definition set_published (v : list (bytes * Message)) (e : Engine) : Engine :=
  {| filter := filter e; syncingTarget := syncingTarget e;
     syncingStatus := syncingStatus e;
     frameProverTrie := frameProverTrie e;
     frameSeenProverTrie := frameSeenProverTrie e;
     frame := frame e; latestFrameReceived := latestFrameReceived e;
     lastFrameReceivedAt := lastFrameReceivedAt e;
     candidates := candidates e; published := v;
     subscriptions := subscriptions e; openIterators := openIterators e |}.

Definition set_subscriptions (v : list bytes) (e : Engine) : Engine :=
  {| filter := filter e; syncingTarget := syncingTarget e;
     syncingStatus := syncingStatus e;
     frameProverTrie := frameProverTrie e;
     frameSeenProverTrie := frameSeenProverTrie e;
     frame := frame e; latestFrameReceived := latestFrameReceived e;
     lastFrameReceivedAt := lastFrameReceivedAt e;
     candidates := candidates e; published := published e;
     subscriptions := v; openIterators := openIterators e |}.

Definition set_openIterators (v : nat) (e : Engine) : Engine :=
  {| filter := filter e; syncingTarget := syncingTarget e;
     syncingStatus := syncingStatus e;
     frameProverTrie := frameProverTrie e;
     frameSeenProverTrie := frameSeenProverTrie e;
     frame := frame e; latestFrameReceived := latestFrameReceived e;
     lastFrameReceivedAt := lastFrameReceivedAt e;
     candidates := candidates e; published := published e;
     subscriptions := subscriptions e; openIterators := v |}.

(** ** The handler monad

    A handler either returns ([Ok], Go's [nil] error for [unit]), returns a
    non-nil error ([Err]), panics, or exhausts the fuel given to an
    unbounded [for] loop. The engine state is threaded through and survives
    every outcome. *)

Inductive outcome (A : Type) : Type :=
| Ok (a : A)
| Err (e : error)
| Panic (msg : string)
| OutOfFuel.
Arguments Ok {A} a.
Arguments Err {A} e.
Arguments Panic {A} msg.
Arguments OutOfFuel {A}.

Definition M (A : Type) : Type := Engine -> outcome A * Engine.

Definition ret {A} (a : A) : M A := fun s => (Ok a, s).

Definition bind {A B} (m : M A) (k : A -> M B) : M B :=
  fun s =>
    match m s with
    | (Ok a, s') => k a s'
    | (Err e, s') => (Err e, s')
    | (Panic msg, s') => (Panic msg, s')
    | (OutOfFuel, s') => (OutOfFuel, s')
    end.

Definition throw {A} (e : error) : M A := fun s => (Err e, s).
Definition panic {A} (msg : string) : M A := fun s => (Panic msg, s).
Definition outOfFuel {A} : M A := fun s => (OutOfFuel, s).
Definition get : M Engine := fun s => (Ok s, s).
Definition modify (f : Engine -> Engine) : M unit := fun s => (Ok tt, f s).

(** [defer]: the deferred update runs on every exit, also while panicking. *)
Definition defer {A} (d : Engine -> Engine) (m : M A) : M A :=
  fun s => let '(r, s') := m s in (r, d s').

Notation "'do' x <- m ; k" := (bind m (fun x => k))
  (at level 10, x name, m at level 100, k at level 200).
Notation "'do' ' pat <- m ; k" :=
  (bind m (fun x => match x with pat => k end))
  (at level 10, pat pattern, m at level 100, k at level 200).

(** [if err != nil { return errors.Wrap(err, ctx) }] *)
Definition try {A} (r : result A) (ctx : string) : M A :=
  match r with
  | Val a => ret a
  | Fail e => throw (ErrWrap e ctx)
  end.

Definition tryErr (r : option error) (ctx : string) : M unit :=
  match r with
  | None => ret tt
  | Some e => throw (ErrWrap e ctx)
  end.

(** Go's slice expression [s[lo:hi]], which panics when out of range. *)
Definition slice (s : bytes) (lo hi : Z) : M bytes :=
  if (0 <=? lo) && (lo <=? hi) && (hi <=? Z.of_nat (length s))
  then ret (take (Z.to_nat (hi - lo)) (drop (Z.to_nat lo) s))
  else panic "slice bounds out of range".

(** ** Collaborators

    The handlers reach the rest of the node only through these calls. None
    of them is defined in the file under study, so each is a parameter; a
    call that can fail returns a [result]. *)

(** Methods of [*protobufs.ClockFrame] and the [math/big] byte encoding of
    selectors and distances. *)
Class FrameOps := {
  GetAddress : ClockFrame -> result bytes;
  VerifyDataClockFrame : ClockFrame -> option error;
  GetSelector : ClockFrame -> result Z;
  GetParentSelectorAndDistance : ClockFrame -> result (Z * Z * Z);
  big_Bytes : Z -> bytes
}.

(** The pairing-curve library ([curves], [qcrypto], the engine's [prover])
    and SHAKE-256 from [sha3]. [shake256 data i] is the [i]-th byte of the
    output stream after absorbing [data]. *)
Class Crypto := {
  Scalar : Type;
  Point : Type;
  Scalar_Zero : Scalar;
  FromAffineCompressed : bytes -> result Point;
  BytesToPolynomial : bytes -> result (list Scalar);
  FFT : list Scalar -> Z -> bool -> result (list Scalar);
  VerifyAggregateProof :
    list (list Scalar) -> list Point -> Point -> Point -> result bool;
  shake256 : bytes -> nat -> Byte.byte;
  shake256_Write_err : bytes -> option error;
  shake256_Read_err : bytes -> option error;
  IntrinsicExecutionOutputType : string
}.

(** What a call into a library does when handed a nil message: the Go
    signature promises an [error], a nil dereference inside is a panic. *)
Inductive nilCall : Type :=
| Returned (err : option error)
| Panicked (msg : string).

(** A candidate iterator is the sequence of what [Value()] yields at each
    position from [First()] on. *)
Definition Iterator : Type := list (result ClockFrame).

(** Pub/sub, protobuf decoding, the clock store, the key store and the wall
    clock. Store writes and publishes can fail; whether they do may depend
    on what has been written or published so far. *)
Class Node := {
  GetPeerID : bytes;
  UnmarshalTo_ClockFramesResponse : Any -> result ClockFramesResponse;
  UnmarshalTo_ClockFramesRequest : Any -> result ClockFramesRequest;
  UnmarshalTo_ProvingKeyRequest : Any -> result ProvingKeyRequest;
  proto_Unmarshal_nil : bytes -> nilCall;
  Serialize_err : Trie.t -> option error;
  Deserialize_err : Trie.serialized -> option error;
  NewTransaction_err : list CandidateRow -> option error;
  PutCandidateDataClockFrame_err :
    list CandidateRow -> CandidateRow -> option error;
  Commit_err : list CandidateRow -> list CandidateRow -> option error;
  GetDataClockFrame : bytes -> Z -> result ClockFrame;
  RangeCandidateDataClockFrames : bytes -> bytes -> Z -> result Iterator;
  publish_err : list (bytes * Message) -> bytes -> Message -> option error;
  GetProvingKey : bytes -> result InclusionCommitment;
  GetStagedProvingKey :
    bytes -> option ProvingKeyAnnouncement * option error;
  time_Now : Engine -> Z
}.

Section Handlers.

Context `{FrameOps} `{Crypto} `{Node}.

(** [if err := m; err != nil { return errors.Wrap(err, ctx) }] *)
Definition wrap {A} (ctx : string) (m : M A) : M A :=
  fun s =>
    match m s with
    | (Err e, s') => (Err (ErrWrap e ctx), s')
    | other => other
    end.

(** *** Pub/sub *)

Definition publishMessage (topic : bytes) (message : Message) : M unit :=
  fun s =>
    match publish_err (published s) topic message with
    | Some e => (Err e, s)
    | None =>
        (Ok tt, set_published (published s ++ [(topic, message)]) s)
    end.

Definition Subscribe (topic : bytes) : M unit :=
  modify (fun s => set_subscriptions (subscriptions s ++ [topic]) s).

(** *** Clock store, write side *)

(** Modelled from the spec: the clock store is not part of the sources at
    hand. Per section 4.4 a transaction is the atomicity unit of one
    candidate insert and readers do not see uncommitted writes: a put
    stages a row in the transaction, and only a successful commit appends
    the staged rows to the store. *)
Definition NewTransaction : M (list CandidateRow) :=
  fun s =>
    match NewTransaction_err (candidates s) with
    | Some e => (Err e, s)
    | None => (Ok [], s)
    end.

Definition PutCandidateDataClockFrame
    (parentSelector distance selector : bytes) (fr : ClockFrame)
    (txn : list CandidateRow) : M (list CandidateRow) :=
  fun s =>
    let row := {| row_parentSelector := parentSelector;
                  row_distance := distance;
                  row_selector := selector;
                  row_frame := fr |} in
    match PutCandidateDataClockFrame_err (candidates s) row with
    | Some e => (Err e, s)
    | None => (Ok (txn ++ [row]), s)
    end.

Definition Commit (txn : list CandidateRow) : M unit :=
  fun s =>
    match Commit_err (candidates s) txn with
    | Some e => (Err e, s)
    | None => (Ok tt, set_candidates (candidates s ++ txn) s)
    end.

(** *** Clock store, candidate iterators *)

Definition openIterator (filter_ selector : bytes) (frameNumber : Z)
  : M Iterator :=
  fun s =>
    match RangeCandidateDataClockFrames filter_ selector frameNumber with
    | Fail e => (Err e, s)
    | Val it => (Ok it, set_openIterators (S (openIterators s)) s)
    end.

Definition iter_Close : M unit :=
  modify (fun s => set_openIterators (Nat.pred (openIterators s)) s).

(** *** Frame verification (lines 206-360) *)

(** [for i := 0; i < (len(frame.Input)-516)/74; i++]: the bound does not
    change during the loop, so the iteration count is fixed on entry;
    Go's [/] truncates towards zero. *)
Fixpoint parseAggregateCommitments (input : bytes) (todo : nat) (i : Z)
    (aggregateCommitments : list Point) : M (list Point) :=
  match todo with
  | O => ret aggregateCommitments
  | S todo' =>
      do raw <- slice input (516 + i * 74) (516 + i * 74 + 74);
      do c <- try (FromAffineCompressed raw) "handle clock frame response";
      parseAggregateCommitments input todo' (i + 1)
        (aggregateCommitments ++ [c])
  end.

Definition aggregateCommitmentCount (input : bytes) : nat :=
  Z.to_nat (Z.quot (Z.of_nat (length input) - 516) 74).

(** [for i := 0; i < 128-len(poly); i++ { poly = append(poly, zero) }]:
    the bound is re-read on every iteration, after [poly] has grown. *)
Equations? padLoop (i : Z) (poly : list Scalar) : list Scalar
  by wf (Z.to_nat (128 - Z.of_nat (length poly) - i)) lt :=
  padLoop i poly with decide (i < 128 - Z.of_nat (length poly)) => {
    | left _ => padLoop (i + 1) (poly ++ [Scalar_Zero]);
    | right _ => poly
  }.
Proof. rewrite length_app. simpl. lia. Qed.

(** How many times that loop appends when entered at index [i] with a
    polynomial of [len] scalars: half the gap to 128, rounded up. *)
Definition padCount (i : Z) (len : nat) : nat :=
  Z.to_nat ((128 - Z.of_nat len - i + 1) / 2).

(** [expand := make([]byte, 1024); digest.Read(expand)] *)
Definition shake256_Read (data : bytes) (buf : bytes) : bytes :=
  map (shake256 data) (seq 0 (length buf)).

(** The polynomial a single inclusion commitment contributes, i.e. what is
    appended to [aggregatePoly]. *)
Definition inclusionPoly (commit : InclusionCommitment)
  : M (list Scalar) :=
  if String.eqb (TypeUrl commit) IntrinsicExecutionOutputType then
    do _ <- tryErr (shake256_Write_err (Data commit))
          "handle clock frame response";
    let expand := replicate 1024 Byte.x00 in
    do _ <- tryErr (shake256_Read_err (Data commit))
          "handle clock frame response";
    let expand := shake256_Read (Data commit) expand in
    do poly <- try (BytesToPolynomial expand)
          "handle clock frame response";
    try (FFT poly 16 false) "handle clock frame response"
  else
    do poly <- try (BytesToPolynomial (Data commit))
          "handle clock frame response";
    let poly := padLoop 0 poly in
    try (FFT poly 128 false) "handle clock frame response".

Definition inclusionCommitment (commit : InclusionCommitment)
  : M (list Scalar * Point) :=
  do evalPoly <- inclusionPoly commit;
  do c <- try (FromAffineCompressed (Commitment commit))
        (if String.eqb (TypeUrl commit) IntrinsicExecutionOutputType
         then "handle clock frame data"
         else "handle clock frame response");
  ret (evalPoly, c).

Fixpoint inclusionCommitments (commits : list InclusionCommitment)
    (aggregatePoly : list (list Scalar)) (commitments : list Point)
  : M (list (list Scalar) * list Point) :=
  match commits with
  | [] => ret (aggregatePoly, commitments)
  | commit :: rest =>
      do '(evalPoly, c) <- inclusionCommitment commit;
      inclusionCommitments rest (aggregatePoly ++ [evalPoly])
        (commitments ++ [c])
  end.

(** [for i, proof := range frame.AggregateProofs]; the index expression
    [aggregateCommitments[i]] is evaluated after [proof.Proof] has been
    decoded and panics when [i] is out of range. *)
Fixpoint verifyAggregateProofs (aggregateCommitments : list Point)
    (i : nat) (proofs : list InclusionAggregateProof) : M unit :=
  match proofs with
  | [] => ret tt
  | proof :: rest =>
      do '(aggregatePoly, commitments) <-
        inclusionCommitments (InclusionCommitments proof) [] [];
      do p <- try (FromAffineCompressed (Proof_ proof))
            "handle clock frame response";
      match aggregateCommitments !! i with
      | None => panic "index out of range"
      | Some aggregateCommitment =>
          do result <-
            try (VerifyAggregateProof aggregatePoly commitments
                   aggregateCommitment p)
              "handle clock frame response";
          if negb result then
            throw (ErrWrap (ErrNew "invalid proof")
                     "handle clock frame response")
          else verifyAggregateProofs aggregateCommitments (S i) rest
      end
  end.

(** *** [handleClockFramesResponse] (lines 142-411) *)

(** The body of the loop over [response.ClockFrames]; [trieCopy] is the
    loop's local snapshot, returned updated. *)
Definition processFrame (address : bytes) (trieCopy : Trie.t)
    (fr : ClockFrame) : M Trie.t :=
  do prover <- try (GetAddress fr) "handle clock frames response";
  let '(earliestFrame, _, count) := Trie.Get trieCopy prover in
  if (count =? 0) || (earliestFrame >=? FrameNumber fr) then
    throw (ErrWrap (ErrNew "prover not in trie")
             "handle clock frame response")
  else
    do _ <- tryErr (VerifyDataClockFrame fr) "handle clock frame response";
    do aggregateCommitments <-
      parseAggregateCommitments (Input fr)
        (aggregateCommitmentCount (Input fr)) 0 [];
    do _ <- verifyAggregateProofs aggregateCommitments 0 (AggregateProofs fr);
    do '(parentSelector, selector, distance) <-
      try (GetParentSelectorAndDistance fr) "handle clock frame data";
    do txn <- wrap "handle clock frame response" NewTransaction;
    do txn <- wrap "handle clock frame response"
      (PutCandidateDataClockFrame (big_Bytes parentSelector)
         (big_Bytes distance) (big_Bytes selector) fr txn);
    do _ <- wrap "handle clock frame response" (Commit txn);
    do e <- get;
    do _ <- (if frame e <? FrameNumber fr
         then modify (set_received (FrameNumber fr) (time_Now e))
         else ret tt);
    do _ <- modify (fun e =>
          set_frameSeenProverTrie
            (Trie.Add (frameSeenProverTrie e) prover (FrameNumber fr)) e);
    ret (Trie.Add trieCopy prover (FrameNumber fr)).

Fixpoint processFrames (address : bytes) (trieCopy : Trie.t)
    (frames : list ClockFrame) : M Trie.t :=
  match frames with
  | [] => ret trieCopy
  | fr :: rest =>
      do trieCopy' <- processFrame address trieCopy fr;
      processFrames address trieCopy' rest
  end.

Definition handleClockFramesResponse (peerID address : bytes) (any : Any)
  : M unit :=
  do e <- get;
  if bytes_Equal peerID GetPeerID then ret tt
  else if negb (bytes_Equal peerID (syncingTarget e)) then ret tt
  else
    do _ <- modify (set_syncingStatus SyncStatusSynchronizing);
    defer (set_syncingStatus SyncStatusNotSyncing)
      (do response <- try (UnmarshalTo_ClockFramesResponse any)
            "handle clock frames response";
       do e <- get;
       do _ <- tryErr (Serialize_err (frameProverTrie e))
            "handle clock frames response";
       let trieCopyBytes := Trie.Serialize (frameProverTrie e) in
       do _ <- tryErr (Deserialize_err trieCopyBytes)
            "handle clock frames response";
       let trieCopy := Trie.Deserialize trieCopyBytes in
       do _ <- processFrames address trieCopy (ClockFrames response);
       ret tt).

(** *** [handleProvingKeyRequest] (lines 413-501) *)

(** [provingKey] is declared as a nil pointer. On the staged-key path the
    lookup result is tested with [!errors.Is(err, store.ErrNotFound)]
    first, which also holds for a nil [err]. On the other path
    [proto.Unmarshal] is handed the still-nil [provingKey]. *)
Definition handleProvingKeyRequest (peerID address : bytes) (any : Any)
  : M unit :=
  if bytes_Equal peerID GetPeerID then ret tt
  else
    match UnmarshalTo_ProvingKeyRequest any with
    | Fail _ => ret tt
    | Val request =>
        if (length (ProvingKeyBytes request) =? 0)%nat then ret tt
        else
          do e <- get;
          do _ <- Subscribe (filter e ++ peerID);
          let publish (provingKey : option ProvingKeyAnnouncement)
            : M unit :=
            fun s =>
              match publishMessage (filter s ++ peerID)
                      (MsgProvingKeyAnnouncement provingKey) s with
              | (Err _, s') => (Ok tt, s')
              | other => other
              end in
          match GetProvingKey (ProvingKeyBytes request) with
          | Fail err =>
              if negb (errors_Is_NotFound err) then ret tt
              else
                let '(provingKey, err) :=
                  GetStagedProvingKey (ProvingKeyBytes request) in
                if negb (errors_Is_NotFound_opt err) then ret tt
                else
                  match err with
                  | Some _ => ret tt
                  | None => publish provingKey
                  end
          | Val inclusion =>
              match proto_Unmarshal_nil (Data inclusion) with
              | Panicked msg => panic msg
              | Returned (Some _) => ret tt
              | Returned None => publish None
              end
          end
    end.

(** *** [handleClockFramesRequest] (lines 503-674) *)

(** [if to == 0 || to-request.FromFrameNumber > 32 { to = from + 31 }],
    all in [uint64]. *)
Definition clampTo (from to : Z) : Z :=
  if (to =? 0) || (u64 (to - from) >? 32) then u64 (from + 31) else to.

(** [for iter.First(); iter.Valid(); iter.Next()] over the remaining
    positions of the iterator. An early [return] leaves the loop, and the
    function, before [iter.Close()] is reached. *)
Fixpoint iterLoop (topic : bytes) (it : Iterator)
    (nextSpan set : list ClockFrame)
  : M (list ClockFrame * list ClockFrame) :=
  match it with
  | [] => ret (nextSpan, set)
  | value :: rest =>
      do fr <- try value "handle clock frame request";
      do _ <- wrap "handle clock frame request"
            (publishMessage topic (MsgClockFrame fr));
      iterLoop topic rest (nextSpan ++ [fr]) (set ++ [fr])
  end.

(** The body of [for _, s := range searchSpan]. *)
Definition scanFrame (topic : bytes) (s : ClockFrame)
    (noMoreFinalized : bool) (nextSpan set : list ClockFrame)
  : M (bool * list ClockFrame * list ClockFrame) :=
  do selector <- try (GetSelector s) "handle clock frame request";
  do '(noMoreFinalized, nextSpan, set) <-
    (if negb noMoreFinalized then
       match GetDataClockFrame (Filter s) (u64 (FrameNumber s + 1)) with
       | Fail err =>
           if errors_Is_NotFound err then ret (true, nextSpan, set)
           else throw (ErrWrap err "handle clock frame request")
       | Val fr =>
           do _ <- wrap "handle clock frame request"
                 (publishMessage topic (MsgClockFrame fr));
           ret (noMoreFinalized, nextSpan ++ [fr], set ++ [fr])
       end
     else ret (noMoreFinalized, nextSpan, set));
  if noMoreFinalized then
    do iter <- wrap "handle clock frame request"
      (openIterator (Filter s) (big_Bytes selector)
         (u64 (FrameNumber s + 1)));
    do '(nextSpan, set) <- iterLoop topic iter nextSpan set;
    do _ <- iter_Close;
    ret (noMoreFinalized, nextSpan, set)
  else ret (noMoreFinalized, nextSpan, set).

Fixpoint scanSpan (topic : bytes) (searchSpan : list ClockFrame)
    (noMoreFinalized : bool) (nextSpan set : list ClockFrame)
  : M (bool * list ClockFrame * list ClockFrame) :=
  match searchSpan with
  | [] => ret (noMoreFinalized, nextSpan, set)
  | s :: rest =>
      do '(noMoreFinalized, nextSpan, set) <-
        scanFrame topic s noMoreFinalized nextSpan set;
      scanSpan topic rest noMoreFinalized nextSpan set
  end.

(** [for len(searchSpan) != 0 && from+uint64(currentNumber) <= to]. The
    loop has no bound of its own, so it runs on [fuel]; [currentNumber]
    is an [int]. *)
Fixpoint scanLoop (fuel : nat) (topic : bytes) (from to : Z)
    (searchSpan : list ClockFrame) (noMoreFinalized : bool)
    (currentNumber : Z) (set : list ClockFrame) : M unit :=
  if negb (length searchSpan =? 0)%nat
     && (u64 (from + u64 currentNumber) <=? to)
  then
    match fuel with
    | O => outOfFuel
    | S fuel' =>
        do '(noMoreFinalized, nextSpan, set) <-
          scanSpan topic searchSpan noMoreFinalized [] set;
        scanLoop fuel' topic from to nextSpan noMoreFinalized
          (int64 (currentNumber + 1)) set
    end
  else ret tt.

Definition handleClockFramesRequest (fuel : nat)
    (peerID address : bytes) (any : Any) : M unit :=
  if bytes_Equal peerID GetPeerID then ret tt
  else
    do request <- try (UnmarshalTo_ClockFramesRequest any)
          "handle clock frame request";
    do e <- get;
    let topic := filter e ++ peerID in
    do _ <- Subscribe topic;
    let from := FromFrameNumber request in
    match GetDataClockFrame (req_Filter request) from with
    | Fail err =>
        if negb (errors_Is_NotFound err) then
          throw (ErrWrap err "handle clock frame request")
        else
          do _ <- wrap "handle clock frame request"
                (publishMessage topic
                   (MsgClockFramesResponse
                      {| rsp_Filter := req_Filter request;
                         rsp_FromFrameNumber := 0;
                         rsp_ToFrameNumber := 0;
                         ClockFrames := [] |}));
          ret tt
    | Val base =>
        let to := clampTo from (ToFrameNumber request) in
        scanLoop fuel topic from to [base] false 1 [base]
    end.

End Handlers.

(** ** Fixtures

    Concrete collaborators on which the handlers can be run: points are
    their own encodings, the FFT hands its input back, every proof
    verifies, the prover of a frame is read off its parent selector and its
    selector off its height. *)
Module Fixture.

Definition frameOps : FrameOps := {|
  GetAddress fr := Val (ParentSelector fr);
  VerifyDataClockFrame _ := None;
  GetSelector fr := Val (FrameNumber fr);
  GetParentSelectorAndDistance fr :=
    Val (FrameNumber fr - 1, FrameNumber fr, 1);
  big_Bytes z :=
    match Byte.of_N (Z.to_N z) with Some b => [b] | None => [] end
|}.

Definition crypto : Crypto := {|
  Scalar := Z;
  Point := bytes;
  Scalar_Zero := 0;
  FromAffineCompressed raw := Val raw;
  BytesToPolynomial raw := Val (map (fun b => Z.of_N (Byte.to_N b)) raw);
  FFT poly _ _ := Val poly;
  VerifyAggregateProof _ _ _ _ := Val true;
  shake256 _ _ := Byte.x00;
  shake256_Write_err _ := None;
  shake256_Read_err _ := None;
  IntrinsicExecutionOutputType := "IntrinsicExecutionOutput"
|}.

Definition lookupFrame (frames : list ClockFrame) (n : Z)
  : result ClockFrame :=
  match List.find (fun fr => FrameNumber fr =? n) frames with
  | Some fr => Val fr
  | None => Fail ErrNotFound
  end.

(** A node whose store holds [finalized] and, under each height, the
    candidates [candidatesAt] gives; publishing never fails when
    [publishes] is [None], and otherwise succeeds that many times and fails
    from then on. *)
Definition node (response : ClockFramesResponse)
    (request : ClockFramesRequest) (finalized : list ClockFrame)
    (candidatesAt : Z -> Iterator) (publishes : option nat) : Node := {|
  GetPeerID := [Byte.x01];
  UnmarshalTo_ClockFramesResponse _ := Val response;
  UnmarshalTo_ClockFramesRequest _ := Val request;
  UnmarshalTo_ProvingKeyRequest _ := Val {| ProvingKeyBytes := [Byte.x07] |};
  proto_Unmarshal_nil _ := Returned None;
  Serialize_err _ := None;
  Deserialize_err _ := None;
  NewTransaction_err _ := None;
  PutCandidateDataClockFrame_err _ _ := None;
  Commit_err _ _ := None;
  GetDataClockFrame _ n := lookupFrame finalized n;
  RangeCandidateDataClockFrames _ _ n := Val (candidatesAt n);
  publish_err log _ _ :=
    match publishes with
    | None => None
    | Some limit =>
        if (length log <? limit)%nat then None else Some (ErrExternal 7)
    end;
  GetProvingKey _ := Fail ErrNotFound;
  GetStagedProvingKey _ := (None, Some ErrNotFound);
  time_Now _ := 1700000000
|}.

Definition prover1 : bytes := [Byte.xaa].
Definition peer1 : bytes := [Byte.x02].
Definition peer2 : bytes := [Byte.x03].

Definition bareFrame (n : Z) (parent : bytes) : ClockFrame := {|
  Filter := [Byte.xf0];
  FrameNumber := n;
  ParentSelector := parent;
  Input := replicate 516 Byte.x00;
  AggregateProofs := []
|}.

Definition emptyResponse : ClockFramesResponse :=
  {| rsp_Filter := []; rsp_FromFrameNumber := 0;
     rsp_ToFrameNumber := 0; ClockFrames := [] |}.

Definition batch (frames : list ClockFrame) : ClockFramesResponse :=
  {| rsp_Filter := [Byte.xf0]; rsp_FromFrameNumber := 0;
     rsp_ToFrameNumber := 0; ClockFrames := frames |}.

Definition rangeRequest (from to : Z) : ClockFramesRequest :=
  {| req_Filter := [Byte.xf0]; FromFrameNumber := from;
     ToFrameNumber := to |}.

Definition anyMsg : Any := {| any_TypeUrl := "x"; any_Value := [] |}.

(** An engine syncing from [peer1] whose prover trie knows [prover1]
    since frame 2. *)
Definition engine0 : Engine := {|
  filter := [Byte.xf0];
  syncingTarget := peer1;
  syncingStatus := SyncStatusNotSyncing;
  frameProverTrie := {[ prover1 := (2, 2, 1) ]};
  frameSeenProverTrie := ∅;
  frame := 4;
  latestFrameReceived := 0;
  lastFrameReceivedAt := 0;
  candidates := [];
  published := [];
  subscriptions := [];
  openIterators := 0
|}.

(** A frame announcing no aggregate commitment (its input stops at byte
    516) yet carrying one aggregate proof. *)
Definition overProvedFrame : ClockFrame := {|
  Filter := [Byte.xf0];
  FrameNumber := 5;
  ParentSelector := prover1;
  Input := replicate 516 Byte.x00;
  AggregateProofs := [ {| InclusionCommitments := []; Proof_ := [] |} ]
|}.

(** Scenario S4 with a membership failure in the middle: the prover of
    the second frame is unknown to the trie. *)
Definition mixedBatch : list ClockFrame :=
  [bareFrame 5 prover1; bareFrame 6 peer2; bareFrame 7 prover1].

Definition mixedNode : Node :=
  node (batch mixedBatch) (rangeRequest 0 0) [] (fun _ => []) None.

(** A commitment of a type other than the intrinsic one, whose data
    converts to a polynomial of two scalars. *)
Definition shortCommitment : InclusionCommitment :=
  {| TypeUrl := "KeyBundleAnnouncement";
     Data := [Byte.x01; Byte.x02];
     Commitment := [] |}.

(** Finalized frames at heights 10 to 15 (scenario S5). *)
Definition finalized10to15 : list ClockFrame :=
  map (fun n => bareFrame n []) [10; 11; 12; 13; 14; 15].

(** The store of a chain finalized up to height 10 only, with [width]
    candidates at height 11 and none above. *)
Definition candidatesAt11 (width : nat) (n : Z) : Iterator :=
  if n =? 11 then replicate width (Val (bareFrame 11 [])) else [].

Definition forkedNode (request : ClockFramesRequest) (width : nat)
    (publishes : option nat) : Node :=
  node emptyResponse request [bareFrame 10 []] (candidatesAt11 width)
    publishes.

(** The same store when reading the value of the first candidate fails. *)
Definition brokenValueNode (request : ClockFramesRequest) : Node :=
  node emptyResponse request [bareFrame 10 []]
    (fun n => if n =? 11 then [Fail (ErrExternal 3)] else []) None.

(** The runs the properties below refer to. *)
Definition mixedRun : outcome unit * Engine :=
  @handleClockFramesResponse frameOps crypto mixedNode peer1 [] anyMsg
    engine0.

(** A request for [10, 11] against the forked store with 33 candidates
    at height 11. *)
Definition fanOutRun : outcome unit * Engine :=
  @handleClockFramesRequest frameOps
    (forkedNode (rangeRequest 10 11) 33 None) 40 peer1 [] anyMsg engine0.

(** A backwards request, from height 12 to height 10, against the chain
    finalized up to height 15. *)
Definition backwardsNode : Node :=
  node emptyResponse (rangeRequest 12 10) finalized10to15 (fun _ => []) None.

Definition backwardsRun : outcome unit * Engine :=
  @handleClockFramesRequest frameOps backwardsNode 40 peer1 [] anyMsg
    engine0.

(** Scenario S5: a request for [10, 14] against the same chain. *)
Definition rangeNode : Node :=
  node emptyResponse (rangeRequest 10 14) finalized10to15 (fun _ => []) None.

Definition rangeRun : outcome unit * Engine :=
  @handleClockFramesRequest frameOps rangeNode 40 peer1 [] anyMsg engine0.

(** A batch holding [overProvedFrame] alone. *)
Definition overProvedRun : outcome unit * Engine :=
  @handleClockFramesResponse frameOps crypto
    (node (batch [overProvedFrame]) (rangeRequest 0 0) [] (fun _ => [])
       None)
    peer1 [] anyMsg engine0.

(** A request for [10, 11] against the forked store with one candidate,
    when publishing fails and when reading the candidate fails. *)
Definition publishFailsRun : outcome unit * Engine :=
  @handleClockFramesRequest frameOps
    (forkedNode (rangeRequest 10 11) 1 (Some 0%nat)) 40 peer1 [] anyMsg engine0.

Definition valueFailsRun : outcome unit * Engine :=
  @handleClockFramesRequest frameOps
    (brokenValueNode (rangeRequest 10 11)) 40 peer1 [] anyMsg engine0.

(** An open-ended request from height 10 against the chain finalized up
    to height 15. *)
Definition openEndedNode : Node :=
  node emptyResponse (rangeRequest 10 0) finalized10to15 (fun _ => []) None.

Definition openEndedRun : outcome unit * Engine :=
  @handleClockFramesRequest frameOps openEndedNode 40 peer1 [] anyMsg
    engine0.

End Fixture.

(** ** Vocabulary of the properties *)

(** A computation that never touches the engine state. *)
Definition stateless {A} (m : M A) : Prop := forall s, (m s).2 = s.

(** The handler's outcome carries no value. *)
Definition verdict {A} (r : outcome A) : outcome unit :=
  match r with
  | Ok _ => Ok tt
  | Err e => Err e
  | Panic msg => Panic msg
  | OutOfFuel => OutOfFuel
  end.

(** [tc] agrees with the snapshot [tc0] on what the membership test reads:
    same earliest frame for every prover, and a non-zero count only where
    the snapshot has one. *)
Definition standing (tc0 tc : Trie.t) : Prop :=
  forall key,
    (Trie.Get tc key).1.1 = (Trie.Get tc0 key).1.1
    /\ ((Trie.Get tc key).2 <> 0 -> (Trie.Get tc0 key).2 <> 0).

Section BatchVocabulary.

Context `{FrameOps}.

(** The membership test of lines 185-186 passes for [fr] against [tr]. *)
Definition qualifies (tr : Trie.t) (fr : ClockFrame) : Prop :=
  exists prover,
    GetAddress fr = Val prover
    /\ (Trie.Get tr prover).2 <> 0
    /\ (Trie.Get tr prover).1.1 < FrameNumber fr.

(** The lookup for [fr] in [tr] yields a zero count or an earliest frame
    not below the frame's number. *)
Definition rejected (tr : Trie.t) (fr : ClockFrame) : Prop :=
  exists prover,
    GetAddress fr = Val prover
    /\ ((Trie.Get tr prover).2 = 0
        \/ (Trie.Get tr prover).1.1 >= FrameNumber fr).

(** One mutation of a trie for one frame. *)
Definition addSeen (tr : Trie.t) (fr : ClockFrame) : Trie.t :=
  match GetAddress fr with
  | Val prover => Trie.Add tr prover (FrameNumber fr)
  | Fail _ => tr
  end.

End BatchVocabulary.

(** What a computation does to the count of open iterators: balanced when
    it returns normally, at most one left open otherwise. *)
Definition leaksAtMostOne {A} (m : M A) : Prop :=
  forall s : Engine,
    match (m s).1 with
    | Ok _ => openIterators (m s).2 = openIterators s
    | _ =>
        (openIterators s <= openIterators (m s).2 <= S (openIterators s))%nat
    end.

(** [w + w^2 + ... + w^rounds]: how many frames a breadth-first traversal
    of [rounds] levels can meet when no node has more than [w] children. *)
Fixpoint fanOutBound (w rounds : nat) : nat :=
  match rounds with
  | O => O
  | S rounds' => w * (1 + fanOutBound w rounds')
  end.

(** The heights of the clock frames among a sequence of published
    messages, in publication order. *)
Definition publishedHeights (log : list (bytes * Message)) : list Z :=
  omap (fun entry =>
          match entry.2 with
          | MsgClockFrame fr => Some (FrameNumber fr)
          | _ => None
          end) log.

(** ** The message router: [handleSync] (lines 71-140) *)

(** A transport message ([pb.Message]) and the envelope it carries
    ([protobufs.Message]). *)
Record PubSubMessage := {
  msg_Data : bytes;
  msg_From : bytes;
  msg_Signature : bytes
}.

Record Envelope := { env_Address : bytes; env_Payload : bytes }.

(** What the router needs beyond the handlers above: the two protobuf
    decoders, the type URLs it switches on (constants of package
    [protobufs]), and the three handlers that live in other files of the
    engine. Go rejects a [switch] with two equal constant cases, so the
    cases are tried in source order. *)
Class Router := {
  proto_Unmarshal_Message : bytes -> result Envelope;
  proto_Unmarshal_Any : bytes -> result Any;
  ClockFrameType : string;
  ClockFramesResponseType : string;
  ClockFramesRequestType : string;
  ProvingKeyAnnouncementType : string;
  KeyBundleAnnouncementType : string;
  handleClockFrameData : bytes -> bytes -> Any -> bool -> M unit;
  handleProvingKey : bytes -> bytes -> Any -> M unit;
  handleKeyBundle : bytes -> bytes -> Any -> M unit
}.

Section Routing.

Context `{FrameOps} `{Crypto} `{Node} `{Router}.

Definition handleSync (fuel : nat) (message : PubSubMessage) : M unit :=
  if bytes_Equal (msg_From message) GetPeerID then ret tt
  else
    do msg <- try (proto_Unmarshal_Message (msg_Data message)) "handle sync";
    do any <- try (proto_Unmarshal_Any (env_Payload msg)) "handle sync";
    if String.eqb (any_TypeUrl any) ClockFrameType then
      wrap "handle sync"
        (handleClockFrameData (msg_From message) (env_Address msg) any true)
    else if String.eqb (any_TypeUrl any) ClockFramesResponseType then
      wrap "handle sync"
        (handleClockFramesResponse (msg_From message) (env_Address msg) any)
    else if String.eqb (any_TypeUrl any) ClockFramesRequestType then
      wrap "handle sync"
        (handleClockFramesRequest fuel (msg_From message) (env_Address msg)
           any)
    else if String.eqb (any_TypeUrl any) ProvingKeyAnnouncementType then
      wrap "handle sync"
        (handleProvingKey (msg_From message) (env_Address msg) any)
    else if String.eqb (any_TypeUrl any) KeyBundleAnnouncementType then
      wrap "handle sync"
        (handleKeyBundle (msg_From message) (env_Address msg) any)
    else ret tt.

End Routing.

(** ** The node: [newNode], [Start], [Stop] (lines 11-52) *)

Module App.

(** The two interfaces the node holds. A consensus engine is a state on
    which [Start], [Stop] and [RegisterExecutor] act; [Start] and [Stop]
    hand back the one value the node receives from their channel. *)
Class Engines := {
  ExecutionEngine : Type;
  GetName : ExecutionEngine -> string;
  ConsensusEngine : Type;
  engine_Start : ConsensusEngine -> option error * ConsensusEngine;
  engine_Stop : bool -> ConsensusEngine -> option error * ConsensusEngine;
  RegisterExecutor : ExecutionEngine -> Z -> ConsensusEngine -> ConsensusEngine
}.

(** [panic(err)] or a normal return. *)
Inductive run (A : Type) : Type :=
| Returns (a : A)
| Panics (e : error).
Arguments Returns {A} a.
Arguments Panics {A} e.

Section App.

Context `{Engines}.

Record Node := {
  execEngines : gmap string ExecutionEngine;
  engine : ConsensusEngine
}.

(** Both arguments may be nil. *)
Definition newNode (ceremonyExecutionEngine : option ExecutionEngine)
    (engine_ : option ConsensusEngine) : result Node :=
  match engine_ with
  | None => Fail (ErrNew "engine must not be nil")
  | Some eng =>
      let execEngines_ : gmap string ExecutionEngine :=
        match ceremonyExecutionEngine with
        | Some c => <[GetName c := c]> ∅
        | None => ∅
        end in
      Val {| execEngines := execEngines_; engine := eng |}
  end.

(** [for _, e := range n.execEngines]: Go fixes no order for a map; the
    model walks the entries in the order [map_to_list] gives. *)
Definition Start (n : Node) : run Node :=
  match engine_Start (engine n) with
  | (Some err, _) => Panics err
  | (None, eng) =>
      Returns
        {| execEngines := execEngines n;
           engine :=
             foldl (fun acc entry => RegisterExecutor entry.2 0 acc) eng
               (map_to_list (execEngines n)) |}
  end.

Definition Stop (n : Node) : run Node :=
  match engine_Stop false (engine n) with
  | (Some err, _) => Panics err
  | (None, eng) => Returns {| execEngines := execEngines n; engine := eng |}
  end.

End App.

End App.

(** ** Further fixtures *)

Module Scenario.

(** A router whose decoders read the type URL off the first payload byte
    and whose out-of-file handlers do nothing. *)
Definition router : Router := {|
  proto_Unmarshal_Message raw :=
    match raw with
    | [] => Fail (ErrExternal 1)
    | _ => Val {| env_Address := []; env_Payload := raw |}
    end;
  proto_Unmarshal_Any raw :=
    match raw with
    | Byte.x01 :: _ => Val {| any_TypeUrl := "ClockFrame"; any_Value := raw |}
    | Byte.x02 :: _ =>
        Val {| any_TypeUrl := "ClockFramesResponse"; any_Value := raw |}
    | Byte.x03 :: _ =>
        Val {| any_TypeUrl := "ClockFramesRequest"; any_Value := raw |}
    | Byte.x09 :: _ => Val {| any_TypeUrl := "Unknown"; any_Value := raw |}
    | _ => Fail (ErrExternal 2)
    end;
  ClockFrameType := "ClockFrame";
  ClockFramesResponseType := "ClockFramesResponse";
  ClockFramesRequestType := "ClockFramesRequest";
  ProvingKeyAnnouncementType := "ProvingKeyAnnouncement";
  KeyBundleAnnouncementType := "KeyBundleAnnouncement";
  handleClockFrameData _ _ _ _ := ret tt;
  handleProvingKey _ _ _ := ret tt;
  handleKeyBundle _ _ _ := ret tt
|}.

Definition unknownMessage : PubSubMessage :=
  {| msg_Data := [Byte.x09]; msg_From := Fixture.peer2; msg_Signature := [] |}.

Definition garbledMessage : PubSubMessage :=
  {| msg_Data := [Byte.xff]; msg_From := Fixture.peer2; msg_Signature := [] |}.

(** A [ClockFramesResponse] sent by [peer2], which is not the peer
    [Fixture.engine0] syncs with. *)
Definition strayResponse : PubSubMessage :=
  {| msg_Data := [Byte.x02]; msg_From := Fixture.peer2; msg_Signature := [] |}.

Definition sync (message : PubSubMessage) : outcome unit * Engine :=
  @handleSync Fixture.frameOps Fixture.crypto Fixture.mixedNode router 40
    message Fixture.engine0.

(** A key store that holds the requested key only as a staged key. *)
Definition stagedKeyNode : Node := {|
  GetPeerID := [Byte.x01];
  UnmarshalTo_ClockFramesResponse _ := Val Fixture.emptyResponse;
  UnmarshalTo_ClockFramesRequest _ := Val (Fixture.rangeRequest 0 0);
  UnmarshalTo_ProvingKeyRequest _ := Val {| ProvingKeyBytes := [Byte.x07] |};
  proto_Unmarshal_nil _ := Returned None;
  Serialize_err _ := None;
  Deserialize_err _ := None;
  NewTransaction_err _ := None;
  PutCandidateDataClockFrame_err _ _ := None;
  Commit_err _ _ := None;
  GetDataClockFrame _ _ := Fail ErrNotFound;
  RangeCandidateDataClockFrames _ _ _ := Val [];
  publish_err _ _ _ := None;
  GetProvingKey _ := Fail ErrNotFound;
  GetStagedProvingKey _ := (Some {| pka_bytes := [Byte.x07] |}, None);
  time_Now _ := 1700000000
|}.

(** A key store that holds the requested key, and the protobuf library
    as it is for a generated message type: [Unmarshal] resets the message
    it is given, which dereferences the nil pointer. *)
Definition heldKey : InclusionCommitment :=
  {| TypeUrl := "ProvingKeyAnnouncement";
     Data := [Byte.x07];
     Commitment := [] |}.

Definition heldKeyNode : Node := {|
  GetPeerID := [Byte.x01];
  UnmarshalTo_ClockFramesResponse _ := Val Fixture.emptyResponse;
  UnmarshalTo_ClockFramesRequest _ := Val (Fixture.rangeRequest 0 0);
  UnmarshalTo_ProvingKeyRequest _ := Val {| ProvingKeyBytes := [Byte.x07] |};
  proto_Unmarshal_nil _ :=
    Panicked "invalid memory address or nil pointer dereference";
  Serialize_err _ := None;
  Deserialize_err _ := None;
  NewTransaction_err _ := None;
  PutCandidateDataClockFrame_err _ _ := None;
  Commit_err _ _ := None;
  GetDataClockFrame _ _ := Fail ErrNotFound;
  RangeCandidateDataClockFrames _ _ _ := Val [];
  publish_err _ _ _ := None;
  GetProvingKey _ := Val heldKey;
  GetStagedProvingKey _ := (None, Some ErrNotFound);
  time_Now _ := 1700000000
|}.

Definition heldKeyRun : outcome unit * Engine :=
  @handleProvingKeyRequest heldKeyNode Fixture.peer2 [] Fixture.anyMsg
    Fixture.engine0.

Definition stagedKeyRun : outcome unit * Engine :=
  @handleProvingKeyRequest stagedKeyNode Fixture.peer2 [] Fixture.anyMsg
    Fixture.engine0.

(** A chain finalized at the three heights from 20 below [2^64] on, and
    a backwards request against it, from 20 below [2^64] to 30 below. *)
Definition topNode : Node :=
  Fixture.node Fixture.emptyResponse
    (Fixture.rangeRequest (two64 - 20) (two64 - 30))
    (map (fun n => Fixture.bareFrame n [])
       [two64 - 20; two64 - 19; two64 - 18])
    (fun _ => []) None.

Definition topRun : outcome unit * Engine :=
  @handleClockFramesRequest Fixture.frameOps topNode 40 Fixture.peer1 []
    Fixture.anyMsg Fixture.engine0.

(** A frame from a known prover whose input holds two aggregate
    commitments and which carries two aggregate proofs, one inclusion
    commitment each. *)
Definition provedFrame : ClockFrame := {|
  Filter := [Byte.xf0];
  FrameNumber := 5;
  ParentSelector := Fixture.prover1;
  Input := replicate (516 + 2 * 74) Byte.x00;
  AggregateProofs :=
    [ {| InclusionCommitments := [Fixture.shortCommitment];
         Proof_ := [Byte.x01] |};
      {| InclusionCommitments := [Fixture.shortCommitment];
         Proof_ := [Byte.x02] |} ]
|}.

Definition provedNode : Node :=
  Fixture.node (Fixture.batch [provedFrame]) (Fixture.rangeRequest 0 0) []
    (fun _ => []) None.

Definition provedRun : outcome unit * Engine :=
  @handleClockFramesResponse Fixture.frameOps Fixture.crypto provedNode
    Fixture.peer1 [] Fixture.anyMsg Fixture.engine0.

(** Frames 7, 9 and 6 from a known prover, for an engine whose head is
    4. *)
Definition unorderedBatch : list ClockFrame :=
  [Fixture.bareFrame 7 Fixture.prover1; Fixture.bareFrame 9 Fixture.prover1;
   Fixture.bareFrame 6 Fixture.prover1].

Definition unorderedNode : Node :=
  Fixture.node (Fixture.batch unorderedBatch) (Fixture.rangeRequest 0 0) []
    (fun _ => []) None.

Definition unorderedRun : outcome unit * Engine :=
  @handleClockFramesResponse Fixture.frameOps Fixture.crypto unorderedNode
    Fixture.peer1 [] Fixture.anyMsg Fixture.engine0.

(** A chain finalized at heights 10 and 11, with two candidates at height
    12 and one at height 13 (scenario S6, one level up). *)
Definition branchingNode : Node :=
  Fixture.node Fixture.emptyResponse (Fixture.rangeRequest 10 0)
    [Fixture.bareFrame 10 []; Fixture.bareFrame 11 []]
    (fun n =>
       if n =? 12 then
         [Val (Fixture.bareFrame 12 [Byte.x0a]);
          Val (Fixture.bareFrame 12 [Byte.x0b])]
       else if n =? 13 then [Val (Fixture.bareFrame 13 [Byte.x0a])]
       else [])
    None.

Definition branchingRun : outcome unit * Engine :=
  @handleClockFramesRequest Fixture.frameOps branchingNode 40 Fixture.peer1
    [] Fixture.anyMsg Fixture.engine0.

(** A chain finalized at every height from 10 to 49, and a request for
    [10, 43] against it: one frame wider than the limit. *)
Definition longChain : list ClockFrame :=
  map (fun n => Fixture.bareFrame n []) (seqZ 10 40).

Definition wideNode : Node :=
  Fixture.node Fixture.emptyResponse (Fixture.rangeRequest 10 43) longChain
    (fun _ => []) None.

Definition wideRun : outcome unit * Engine :=
  @handleClockFramesRequest Fixture.frameOps wideNode 40 Fixture.peer1 []
    Fixture.anyMsg Fixture.engine0.

(** The request for [10, 42] against the same chain: exactly at the
    limit. *)
Definition limitRun : outcome unit * Engine :=
  @handleClockFramesRequest Fixture.frameOps
    (Fixture.node Fixture.emptyResponse (Fixture.rangeRequest 10 42)
       longChain (fun _ => []) None)
    40 Fixture.peer1 [] Fixture.anyMsg Fixture.engine0.

(** Execution engines are their names; a consensus engine is the list of
    calls made on it, latest first. *)
Inductive call : Type :=
| CallStart
| CallStop (graceful : bool)
| CallRegister (name : string) (frameNumber : Z).

Definition engines : App.Engines := {|
  App.ExecutionEngine := string;
  App.GetName name := name;
  App.ConsensusEngine := list call;
  App.engine_Start log := (None, CallStart :: log);
  App.engine_Stop graceful log := (None, CallStop graceful :: log);
  App.RegisterExecutor name n log := CallRegister name n :: log
|}.

(** The node [newNode] builds from the execution engine "ceremony" and a
    consensus engine on which nothing was called yet, and the same node
    once started. *)
Definition freshNode : @App.Node engines :=
  @App.Build_Node engines (<["ceremony" := "ceremony"]> ∅) ([] : list call).

Definition startedNode : @App.Node engines :=
  @App.Build_Node engines (<["ceremony" := "ceremony"]> ∅)
    [CallRegister "ceremony" 0; CallStart].

End Scenario.

(** ** Vocabulary of the further properties *)

(** [st'] differs from [st] at most in the pub/sub log and in the count of
    open iterators. *)
Definition onlyLogAndIterators (st st' : Engine) : Prop :=
  exists (log : list (bytes * Message)) (n : nat),
    st' = set_openIterators n (set_published log st).

(** A computation that cannot panic. *)
Definition neverPanics {A} (m : M A) : Prop :=
  forall (s : Engine) (msg : string), (m s).1 <> Panic msg.

(** The [j]-th 74-byte chunk after the 516-byte header of a frame input. *)
Definition commitmentChunk (input : bytes) (j : nat) : bytes :=
  take 74 (drop (516 + j * 74) input).

Section StoreVocabulary.

Context `{FrameOps} `{Node}.

(** [fr] is what the store gives as a successor of [s]: the finalized
    frame one height up, or one of the candidates listed under the
    selector of [s] at that height. *)
Definition successorOf (s fr : ClockFrame) : Prop :=
  GetDataClockFrame (Filter s) (u64 (FrameNumber s + 1)) = Val fr
  \/ exists (selector : Z) (it : Iterator),
       GetSelector s = Val selector
       /\ RangeCandidateDataClockFrames (Filter s) (big_Bytes selector)
            (u64 (FrameNumber s + 1)) = Val it
       /\ Val fr ∈ it.

(** [fr] is reached from a frame of [span] by one or more successor
    steps. *)
Inductive descendsFrom (span : list ClockFrame) : ClockFrame -> Prop :=
| descends_child (s fr : ClockFrame) :
    s ∈ span -> successorOf s fr -> descendsFrom span fr
| descends_step (s fr : ClockFrame) :
    descendsFrom span s -> successorOf s fr -> descendsFrom span fr.

(** Every lookup at a height answers with frames of that height. *)
Definition storeKeepsHeights : Prop :=
  (forall (flt : bytes) (n : Z) (fr : ClockFrame),
      GetDataClockFrame flt n = Val fr -> FrameNumber fr = n)
  /\ (forall (flt selector : bytes) (n : Z) (it : Iterator)
             (fr : ClockFrame),
        RangeCandidateDataClockFrames flt selector n = Val it ->
        Val fr ∈ it -> FrameNumber fr = n).

End StoreVocabulary.

(** [st'] differs from [st] at most in the candidate rows, which are only
    appended to, in [frameSeenProverTrie] and in the two reception
    fields. *)
Definition batchKeeps (st st' : Engine) : Prop :=
  frameProverTrie st' = frameProverTrie st
  /\ syncingTarget st' = syncingTarget st
  /\ syncingStatus st' = syncingStatus st
  /\ filter st' = filter st
  /\ frame st' = frame st
  /\ published st' = published st
  /\ subscriptions st' = subscriptions st
  /\ openIterators st' = openIterators st
  /\ exists rows, candidates st' = candidates st ++ rows.

(** [latestFrameReceived] after one more frame, for an engine whose head
    is [head]. *)
Definition received (head : Z) (latest : Z) (fr : ClockFrame) : Z :=
  if head <? FrameNumber fr then FrameNumber fr else latest.

(** A clock frame as [publishMessage] logs it on [topic]. *)
Definition framePost (topic : bytes) (fr : ClockFrame) : bytes * Message :=
  (topic, MsgClockFrame fr).

(** * Properties *)

(** ** Arithmetic of the machine integers *)

Lemma u64_small (x : Z) : 0 <= x < two64 -> u64 x = x.
Proof. intros Hx. unfold u64. apply Z.mod_small. exact Hx. Qed.

Lemma u64_range (x : Z) : 0 <= u64 x < two64.
Proof. unfold u64. apply Z.mod_pos_bound. reflexivity. Qed.

Lemma int64_small (x : Z) : - two63 <= x < two63 -> int64 x = x.
Proof.
  intros Hx. unfold int64.
  rewrite Z.mod_small; unfold two63, two64 in *; lia.
Qed.

(** The clamp leaves at most 32 heights above [from]. *)
Lemma clampTo_width (from to : Z) :
  0 <= from < two64 -> 0 <= to < two64 ->
  u64 (clampTo from to - from) <= 32.
Proof.
  intros Hf Ht. unfold clampTo.
  destruct ((to =? 0) || (u64 (to - from) >? 32)) eqn:Hc.
  - unfold u64, two64 in *.
    rewrite Zminus_mod_idemp_l.
    replace (from + 31 - from) with 31 by lia.
    rewrite Z.mod_small; lia.
  - apply orb_false_iff in Hc as [_ Hc].
    rewrite Z.gtb_ltb in Hc. apply Z.ltb_ge in Hc. exact Hc.
Qed.

Lemma clampTo_range (from to : Z) :
  0 <= to < two64 -> 0 <= clampTo from to < two64.
Proof.
  intros Ht. unfold clampTo.
  destruct ((to =? 0) || (u64 (to - from) >? 32)); [apply u64_range | exact Ht].
Qed.

(** ** The zero-padding loop *)

Section Padding.

Context `{Crypto}.

Lemma padLoop_appends (i : Z) (poly : list Scalar) :
  padLoop i poly = poly ++ replicate (padCount i (length poly)) Scalar_Zero.
Proof.
  funelim (padLoop i poly).
  - match goal with IH : padLoop _ _ = _ ++ _ |- _ => rewrite IH end.
    rewrite length_app. simpl length. unfold padCount.
    replace (Z.to_nat ((128 - Z.of_nat (length poly) - i + 1) / 2))
      with (S (Z.to_nat
                 ((128 - Z.of_nat (length poly + 1) - (i + 1) + 1) / 2))).
    + rewrite <- app_assoc. reflexivity.
    + Z.div_mod_to_equations. lia.
  - unfold padCount.
    replace (Z.to_nat ((128 - Z.of_nat (length poly) - i + 1) / 2)) with O.
    + simpl. symmetry. apply app_nil_r.
    + Z.div_mod_to_equations. lia.
Qed.

Lemma padLoop_length (poly : list Scalar) :
  length (padLoop 0 poly) = (length poly + padCount 0 (length poly))%nat.
Proof. rewrite padLoop_appends, length_app, length_replicate. reflexivity. Qed.

(** A polynomial of at most 126 scalars is still short of 128 scalars
    after the loop. *)
Lemma padLoop_short (poly : list Scalar) :
  (length poly <= 126)%nat -> (length (padLoop 0 poly) < 128)%nat.
Proof.
  intros Hlen. rewrite padLoop_length. unfold padCount.
  assert ((128 - Z.of_nat (length poly) - 0 + 1) / 2
          < 128 - Z.of_nat (length poly)).
  { apply Z.div_lt_upper_bound; lia. }
  assert (0 <= (128 - Z.of_nat (length poly) - 0 + 1) / 2).
  { apply Z.div_pos; lia. }
  lia.
Qed.

(** The intrinsic branch: 1024 bytes are read from SHAKE-256 and the
    transform runs at width 16, forwards. *)
Lemma shake256_Read_length (data buf : bytes) :
  length (shake256_Read data buf) = length buf.
Proof. unfold shake256_Read. rewrite length_map, length_seq. reflexivity. Qed.

Lemma inclusionPoly_intrinsic (commit : InclusionCommitment)
    (poly : list Scalar) (s : Engine) :
  TypeUrl commit = IntrinsicExecutionOutputType ->
  shake256_Write_err (Data commit) = None ->
  shake256_Read_err (Data commit) = None ->
  BytesToPolynomial
    (shake256_Read (Data commit) (replicate 1024 Byte.x00)) = Val poly ->
  length (shake256_Read (Data commit) (replicate 1024 Byte.x00)) = 1024%nat
  /\ inclusionPoly commit s =
       try (FFT poly 16 false) "handle clock frame response" s.
Proof.
  intros Hty Hw Hr Hp. split.
  - rewrite shake256_Read_length. apply length_replicate.
  - unfold inclusionPoly. rewrite Hty, String.eqb_refl.
    unfold bind, tryErr. rewrite Hw, Hr. unfold ret.
    rewrite Hp. reflexivity.
Qed.

(** The default branch: the transform runs at width 128, forwards, on
    the polynomial with [padCount] zeros appended. *)
Lemma inclusionPoly_default (commit : InclusionCommitment)
    (poly : list Scalar) (s : Engine) :
  TypeUrl commit <> IntrinsicExecutionOutputType ->
  BytesToPolynomial (Data commit) = Val poly ->
  inclusionPoly commit s =
    try (FFT (poly ++ replicate (padCount 0 (length poly)) Scalar_Zero)
           128 false) "handle clock frame response" s.
Proof.
  intros Hty Hp. unfold inclusionPoly.
  apply String.eqb_neq in Hty. rewrite Hty.
  unfold bind. rewrite Hp. unfold try at 1, ret.
  rewrite padLoop_appends. reflexivity.
Qed.

End Padding.

(** ** The response gate *)

Section ResponseGate.

Context `{FrameOps} `{Crypto} `{Node}.

(** C6. A [ClockFramesResponse] sent by the local peer, or by a peer that
    is not the current syncing target, makes the handler return [nil] and
    leaves the whole engine state as it was: no candidate row is
    persisted, neither prover trie is touched, and [syncingStatus] is
    never set to [Synchronizing]. *)
Theorem C6_response_from_self_or_off_target_dropped
    (st : Engine) (peerID address : bytes) (any : Any) :
  peerID = GetPeerID \/ peerID <> syncingTarget st ->
  handleClockFramesResponse peerID address any st = (Ok tt, st).
Proof.
  intros Hgate. unfold handleClockFramesResponse, bind, get, bytes_Equal.
  destruct Hgate as [Hself | Hoff].
  - rewrite bool_decide_eq_true_2 by exact Hself. reflexivity.
  - destruct (bool_decide (peerID = GetPeerID)); [reflexivity |].
    rewrite bool_decide_eq_false_2 by exact Hoff. reflexivity.
Qed.

End ResponseGate.

Lemma C6_witness :
  (Fixture.peer2 = @GetPeerID
     (Fixture.node Fixture.emptyResponse (Fixture.rangeRequest 0 0) []
        (fun _ => []) None)
   \/ Fixture.peer2 <> syncingTarget Fixture.engine0)
  /\ @handleClockFramesResponse Fixture.frameOps Fixture.crypto
       (Fixture.node Fixture.emptyResponse (Fixture.rangeRequest 0 0) []
          (fun _ => []) None)
       Fixture.peer2 [] Fixture.anyMsg Fixture.engine0
     = (Ok tt, Fixture.engine0).
Proof.
  assert (Hoff : Fixture.peer2 <> syncingTarget Fixture.engine0)
    by (vm_compute; discriminate).
  split.
  - right. exact Hoff.
  - apply (@C6_response_from_self_or_off_target_dropped
             Fixture.frameOps Fixture.crypto _ Fixture.engine0
             Fixture.peer2 [] Fixture.anyMsg).
    right. exact Hoff.
Defined.

(** ** The proving-key request handler *)

Section ProvingKey.

Context `{Node}.

(** Every [return] of [handleProvingKeyRequest] returns [nil], whatever
    the message and whatever the key store and the publisher answer. The
    only run that does not return [nil] is one that does not return at
    all, because [proto.Unmarshal] panicked on the nil [provingKey] it is
    given after a successful [GetProvingKey]. *)
Lemma handleProvingKeyRequest_nil_or_panic
    (st : Engine) (peerID address : bytes) (any : Any) :
  fst (handleProvingKeyRequest peerID address any st) = Ok tt
  \/ exists request inclusion msg,
       UnmarshalTo_ProvingKeyRequest any = Val request
       /\ GetProvingKey (ProvingKeyBytes request) = Val inclusion
       /\ proto_Unmarshal_nil (Data inclusion) = Panicked msg
       /\ fst (handleProvingKeyRequest peerID address any st) = Panic msg.
Proof.
  unfold handleProvingKeyRequest.
  destruct (bytes_Equal peerID GetPeerID); [left; reflexivity |].
  destruct (UnmarshalTo_ProvingKeyRequest any) as [request | e] eqn:Hreq;
    [| left; reflexivity].
  destruct (length (ProvingKeyBytes request) =? 0)%nat;
    [left; reflexivity |].
  unfold bind, get, Subscribe, modify, publishMessage. simpl.
  destruct (GetProvingKey (ProvingKeyBytes request))
    as [inclusion | err] eqn:Hkey.
  - destruct (proto_Unmarshal_nil (Data inclusion)) as [[e |] | msg] eqn:Hun.
    + left. reflexivity.
    + left. destruct (publish_err _ _ _); reflexivity.
    + right. exists request, inclusion, msg. auto.
  - left. destruct (errors_Is_NotFound err); [| reflexivity]. simpl.
    destruct (GetStagedProvingKey (ProvingKeyBytes request))
      as [provingKey [e |]]; simpl.
    + destruct (errors_Is_NotFound e); reflexivity.
    + reflexivity.
Qed.

(** C10. The handler does not return [nil] on every path. When the key
    store holds the requested key, [proto.Unmarshal] is handed
    [provingKey], still the nil pointer it was declared as (line 481);
    the nil dereference inside is a panic, and the handler panics with
    it, after subscribing and before publishing anything, instead of
    returning. *)
Theorem C10_found_key_panics_instead_of_returning_nil
    (st : Engine) (peerID address : bytes) (any : Any)
    (request : ProvingKeyRequest) (inclusion : InclusionCommitment)
    (msg : string) :
  peerID <> GetPeerID ->
  UnmarshalTo_ProvingKeyRequest any = Val request ->
  ProvingKeyBytes request <> [] ->
  GetProvingKey (ProvingKeyBytes request) = Val inclusion ->
  proto_Unmarshal_nil (Data inclusion) = Panicked msg ->
  handleProvingKeyRequest peerID address any st =
    (Panic msg,
     set_subscriptions (subscriptions st ++ [filter st ++ peerID]) st).
Proof.
  intros Hpeer Hreq Hkey Hfound Hnil.
  unfold handleProvingKeyRequest, bytes_Equal.
  rewrite bool_decide_eq_false_2 by exact Hpeer. rewrite Hreq.
  destruct (ProvingKeyBytes request) as [| b key] eqn:Hbytes;
    [contradiction |].
  cbn [length Nat.eqb].
  unfold bind, get, Subscribe, modify. simpl.
  rewrite Hfound, Hnil. reflexivity.
Qed.

End ProvingKey.

Lemma C10_witness :
  Scenario.heldKeyRun =
    (Panic "invalid memory address or nil pointer dereference",
     set_subscriptions [filter Fixture.engine0 ++ Fixture.peer2]
       Fixture.engine0).
Proof.
  apply (@C10_found_key_panics_instead_of_returning_nil
           Scenario.heldKeyNode Fixture.engine0 Fixture.peer2 []
           Fixture.anyMsg {| ProvingKeyBytes := [Byte.x07] |}
           Scenario.heldKey).
  - vm_compute. discriminate.
  - reflexivity.
  - simpl. discriminate.
  - reflexivity.
  - reflexivity.
Defined.

(** ** The range server: clamping *)

Section Clamp.

Context `{FrameOps} `{Node}.

Lemma handleClockFramesRequest_resolved (fuel : nat) (st : Engine)
    (peerID address : bytes) (any : Any) (request : ClockFramesRequest)
    (base : ClockFrame) :
  peerID <> GetPeerID ->
  UnmarshalTo_ClockFramesRequest any = Val request ->
  GetDataClockFrame (req_Filter request) (FromFrameNumber request)
    = Val base ->
  handleClockFramesRequest fuel peerID address any st =
    scanLoop fuel (filter st ++ peerID) (FromFrameNumber request)
      (clampTo (FromFrameNumber request) (ToFrameNumber request))
      [base] false 1 [base]
      (set_subscriptions (subscriptions st ++ [filter st ++ peerID]) st).
Proof.
  intros Hpeer Hreq Hbase. unfold handleClockFramesRequest, bytes_Equal.
  rewrite bool_decide_eq_false_2 by exact Hpeer.
  unfold bind at 1. rewrite Hreq. unfold try, ret.
  unfold bind at 1. unfold get. unfold bind at 1.
  unfold Subscribe, modify. rewrite Hbase. reflexivity.
Qed.


End Clamp.



(** ** Frame verification: proofs against commitments *)

Section ProofIndex.

Context `{FrameOps} `{Crypto} `{Node}.

(** The number of commitments parsed is the loop bound, whatever the
    number of aggregate proofs. *)
Lemma parseAggregateCommitments_length (input : bytes) (todo : nat) :
  forall (i : Z) (acc out : list Point) (s s' : Engine),
    parseAggregateCommitments input todo i acc s = (Ok out, s') ->
    length out = (length acc + todo)%nat.
Proof.
  induction todo as [| todo IH]; intros i acc out s s' Hrun.
  - inversion Hrun. lia.
  - simpl in Hrun. unfold bind in Hrun.
    destruct (slice input _ _ s) as [[raw | | |] s1]; try discriminate.
    destruct (try _ _ s1) as [[c | | |] s2]; try discriminate.
    apply IH in Hrun. rewrite length_app in Hrun. simpl in Hrun. lia.
Qed.

(** Reaching a proof whose index has no commitment panics, once the
    proof's own inclusion commitments and point have decoded. *)
Lemma verifyAggregateProofs_index_out_of_range
    (aggregateCommitments : list Point) (i : nat)
    (proof : InclusionAggregateProof) (rest : list InclusionAggregateProof)
    (s s' : Engine) (polys : list (list Scalar)) (cs : list Point)
    (p : Point) :
  (length aggregateCommitments <= i)%nat ->
  inclusionCommitments (InclusionCommitments proof) [] [] s
    = (Ok (polys, cs), s') ->
  FromAffineCompressed (Proof_ proof) = Val p ->
  verifyAggregateProofs aggregateCommitments i (proof :: rest) s
    = (Panic "index out of range", s').
Proof.
  intros Hlen Hinc Hp. simpl. unfold bind at 1. rewrite Hinc.
  unfold bind at 1. rewrite Hp. unfold try, ret.
  rewrite (lookup_ge_None_2 aggregateCommitments i) by lia.
  reflexivity.
Qed.

End ProofIndex.

(** C2. The verifier has no check that the number of aggregate proofs
    equals the number of aggregate commitments parsed from the input. On a
    frame whose 516-byte input announces no commitment but which carries
    one aggregate proof, the handler reaches [aggregateCommitments[0]] on
    an empty slice and panics instead of rejecting the frame. *)
Theorem C2_excess_aggregate_proof_panics :
  aggregateCommitmentCount (Input Fixture.overProvedFrame) = 0%nat
  /\ length (AggregateProofs Fixture.overProvedFrame) = 1%nat
  /\ Fixture.overProvedRun.1 = Panic "index out of range".
Proof. vm_compute. repeat split. Qed.

(** ** Inclusion commitments: padding *)

(** C7. For a commitment of a type other than the intrinsic one the
    polynomial handed to the width-128 transform is not padded up to 128
    scalars: the padding loop compares its counter with [128 - len(poly)]
    while [poly] grows, and stops half way. A polynomial of two scalars
    reaches the transform with 63 zeros appended, 65 scalars in all. *)
Theorem C7_default_padding_stops_half_way :
  @inclusionPoly Fixture.crypto Fixture.shortCommitment Fixture.engine0
    = (Ok ([1; 2] ++ replicate 63 0), Fixture.engine0)
  /\ length (@padLoop Fixture.crypto 0 [1; 2]) = 65%nat
  /\ length (@padLoop Fixture.crypto 0 []) = 64%nat.
Proof. repeat split; vm_compute; reflexivity. Qed.

(** ** The range server: concrete runs *)

(** C4. With finalized frames at heights 10 to 15 and the request
    [{from: 10, to: 14}], the frames published on [filter || peer_id] are
    those at heights 11, 12, 13, 14: the base frame at height 10 is put
    into [set] and [searchSpan] but is never published. *)
Theorem C4_base_frame_is_not_published :
  Fixture.rangeRun.1 = Ok tt
  /\ published Fixture.rangeRun.2
     = map (fun n => (filter Fixture.engine0 ++ Fixture.peer1,
                      MsgClockFrame (Fixture.bareFrame n [])))
         [11; 12; 13; 14]
  /\ publishedHeights (published Fixture.rangeRun.2) = [11; 12; 13; 14].
Proof. vm_compute. repeat split. Qed.

(** C8. When the store is finalized up to height 10 and holds one
    candidate at height 11, a request for [10, 11] opens a candidate
    iterator; if publishing that candidate fails, or if reading its value
    fails, the handler returns the error straight from inside the loop and
    the iterator is still open on return. *)
Theorem C8_iterator_left_open_on_error :
  openIterators Fixture.engine0 = 0%nat
  /\ Fixture.publishFailsRun.1
     = Err (ErrWrap (ErrExternal 7) "handle clock frame request")
  /\ openIterators Fixture.publishFailsRun.2 = 1%nat
  /\ Fixture.valueFailsRun.1
     = Err (ErrWrap (ErrExternal 3) "handle clock frame request")
  /\ openIterators Fixture.valueFailsRun.2 = 1%nat.
Proof. vm_compute. repeat split. Qed.

(** ** The response batch *)

Lemma standing_refl (tc : Trie.t) : standing tc tc.
Proof. intros key. split; [reflexivity | tauto]. Qed.

Lemma Trie_Get_Add_other (tc : Trie.t) (key other : bytes) (n : Z) :
  other <> key -> Trie.Get (Trie.Add tc key n) other = Trie.Get tc other.
Proof.
  intros Hne. unfold Trie.Get, Trie.Add, Trie.t in *.
  destruct (tc !! key) as [[[e l] c] |];
    rewrite lookup_insert_ne by congruence; reflexivity.
Qed.

Lemma Trie_Get_Add_present (tc : Trie.t) (key : bytes) (n e l c : Z) :
  Trie.Get tc key = (e, l, c) -> c <> 0 ->
  Trie.Get (Trie.Add tc key n) key = (Z.min e n, Z.max l n, u64 (c + 1)).
Proof.
  intros Hget Hc. unfold Trie.Get, Trie.Add, Trie.t in *.
  destruct (tc !! key) as [[[e' l'] c'] |].
  - inversion Hget; subst. rewrite lookup_insert_eq. reflexivity.
  - inversion Hget; subst. contradiction.
Qed.

(** Adding a frame for a prover that has just passed the membership test
    changes nothing the test reads. *)
Lemma standing_Add (tc0 tc : Trie.t) (key : bytes) (n : Z) :
  standing tc0 tc ->
  (Trie.Get tc key).2 <> 0 -> (Trie.Get tc key).1.1 < n ->
  standing tc0 (Trie.Add tc key n).
Proof.
  intros Hst Hc He other.
  destruct (decide (other = key)) as [-> | Hne].
  - destruct (Trie.Get tc key) as [[e l] c] eqn:Hget. simpl in Hc, He.
    rewrite (Trie_Get_Add_present tc key n e l c Hget Hc). simpl.
    destruct (Hst key) as [He0 Hc0]. rewrite Hget in He0, Hc0.
    simpl in He0, Hc0. split.
    + rewrite <- He0. lia.
    + intros _. apply Hc0. exact Hc.
  - rewrite (Trie_Get_Add_other tc key other n Hne). apply Hst.
Qed.

Lemma Trie_roundtrip (tr : Trie.t) :
  Trie.Deserialize (Trie.Serialize tr) = tr.
Proof. unfold Trie.Deserialize, Trie.Serialize. apply list_to_map_to_list. Qed.

Section Stateless.

Context `{FrameOps} `{Crypto} `{Node}.

Lemma stateless_ret {A} (a : A) : stateless (ret a).
Proof. intros s. reflexivity. Qed.

Lemma stateless_throw {A} (e : error) : stateless (@throw A e).
Proof. intros s. reflexivity. Qed.

Lemma stateless_panic {A} (msg : string) : stateless (@panic A msg).
Proof. intros s. reflexivity. Qed.

Lemma stateless_try {A} (r : result A) (ctx : string) :
  stateless (try r ctx).
Proof. intros s. destruct r; reflexivity. Qed.

Lemma stateless_tryErr (r : option error) (ctx : string) :
  stateless (tryErr r ctx).
Proof. intros s. destruct r; reflexivity. Qed.

Lemma stateless_bind {A B} (m : M A) (k : A -> M B) :
  stateless m -> (forall a, stateless (k a)) -> stateless (bind m k).
Proof.
  intros Hm Hk s. unfold bind. specialize (Hm s).
  destruct (m s) as [[a | e | msg |] s1]; simpl in Hm; subst s1;
    try reflexivity.
  apply Hk.
Qed.

Lemma stateless_slice (b : bytes) (lo hi : Z) : stateless (slice b lo hi).
Proof. intros s. unfold slice. destruct (_ && _); reflexivity. Qed.

Lemma stateless_parseAggregateCommitments (input : bytes) (todo : nat) :
  forall (i : Z) (acc : list Point),
    stateless (parseAggregateCommitments input todo i acc).
Proof.
  induction todo as [| todo IH]; intros i acc; simpl.
  - apply stateless_ret.
  - apply stateless_bind; [apply stateless_slice |]. intros raw.
    apply stateless_bind; [apply stateless_try |]. intros c. apply IH.
Qed.

Lemma stateless_inclusionPoly (commit : InclusionCommitment) :
  stateless (inclusionPoly commit).
Proof.
  unfold inclusionPoly. destruct (String.eqb _ _).
  - repeat (apply stateless_bind;
            [first [apply stateless_tryErr | apply stateless_try] | intros ?]).
    apply stateless_try.
  - apply stateless_bind; [apply stateless_try |]. intros poly.
    apply stateless_try.
Qed.

Lemma stateless_inclusionCommitments (commits : list InclusionCommitment) :
  forall (polys : list (list Scalar)) (cs : list Point),
    stateless (inclusionCommitments commits polys cs).
Proof.
  induction commits as [| commit rest IH]; intros polys cs; simpl.
  - apply stateless_ret.
  - apply stateless_bind.
    + unfold inclusionCommitment.
      apply stateless_bind; [apply stateless_inclusionPoly |]. intros p.
      apply stateless_bind; [apply stateless_try |]. intros c.
      apply stateless_ret.
    + intros [evalPoly c]. apply IH.
Qed.

Lemma stateless_verifyAggregateProofs (acs : list Point)
    (proofs : list InclusionAggregateProof) :
  forall i : nat, stateless (verifyAggregateProofs acs i proofs).
Proof.
  induction proofs as [| proof rest IH]; intros i; simpl.
  - apply stateless_ret.
  - apply stateless_bind; [apply stateless_inclusionCommitments |].
    intros [polys cs].
    apply stateless_bind; [apply stateless_try |]. intros p.
    destruct (acs !! i); [| apply stateless_panic].
    apply stateless_bind; [apply stateless_try |]. intros ok.
    destruct (negb ok); [apply stateless_throw | apply IH].
Qed.

End Stateless.

Section Batch.

Context `{FrameOps} `{Crypto} `{Node}.

(** What one pass of the loop body does: either the frame passes the
    membership test and every later step, one candidate row holding the
    frame is committed and both tries receive the frame once; or the body
    stops and the engine is exactly as before. *)
Lemma processFrame_cases (address : bytes) (tc : Trie.t) (fr : ClockFrame)
    (st : Engine) :
  match processFrame address tc fr st with
  | (Ok tc', st') =>
      qualifies tc fr
      /\ tc' = addSeen tc fr
      /\ map row_frame (candidates st') = map row_frame (candidates st) ++ [fr]
      /\ frameSeenProverTrie st' = addSeen (frameSeenProverTrie st) fr
      /\ frameProverTrie st' = frameProverTrie st
      /\ syncingStatus st' = syncingStatus st
  | (_, st') => st' = st
  end.
Proof.
  unfold processFrame, qualifies, addSeen. unfold bind at 1.
  destruct (GetAddress fr) as [prover | e]; [| reflexivity].
  unfold try at 1, ret at 1.
  destruct (Trie.Get tc prover) as [[earliest latest] count] eqn:Hget.
  destruct ((count =? 0) || (earliest >=? FrameNumber fr)) eqn:Hchk;
    [reflexivity |].
  apply orb_false_iff in Hchk as [Hcount Hearliest].
  apply Z.eqb_neq in Hcount.
  rewrite Z.geb_leb in Hearliest. apply Z.leb_gt in Hearliest.
  unfold bind at 1.
  destruct (VerifyDataClockFrame fr); [reflexivity |].
  unfold tryErr at 1, ret at 1. unfold bind at 1.
  pose proof (stateless_parseAggregateCommitments (Input fr)
                (aggregateCommitmentCount (Input fr)) 0 [] st) as Hparse.
  destruct (parseAggregateCommitments _ _ _ _ st) as [r1 s1].
  simpl in Hparse. subst s1.
  destruct r1 as [acs | e | msg |]; try reflexivity.
  unfold bind at 1.
  pose proof (stateless_verifyAggregateProofs acs (AggregateProofs fr) 0 st)
    as Hverify.
  destruct (verifyAggregateProofs _ _ _ st) as [r2 s2].
  simpl in Hverify. subst s2.
  destruct r2 as [[] | e | msg |]; try reflexivity.
  unfold bind at 1.
  destruct (GetParentSelectorAndDistance fr) as [[[ps sel] dist] | e];
    [| reflexivity].
  unfold try at 1, ret at 1.
  unfold bind at 1, wrap at 1, NewTransaction.
  destruct (NewTransaction_err (candidates st)); [reflexivity |].
  unfold bind at 1, wrap at 1, PutCandidateDataClockFrame.
  destruct (PutCandidateDataClockFrame_err _ _); [reflexivity |].
  unfold bind at 1, wrap at 1, Commit.
  destruct (Commit_err _ _); [reflexivity |].
  unfold bind, get, modify, ret. simpl.
  destruct (frame st <? FrameNumber fr); simpl;
    (split; [exists prover; rewrite Hget; simpl; auto |]);
    rewrite map_app; simpl; auto.
Qed.

Lemma processFrames_app (address : bytes) (pre post : list ClockFrame) :
  forall (tc : Trie.t) (st : Engine),
    processFrames address tc (pre ++ post) st =
      match processFrames address tc pre st with
      | (Ok tc', st') => processFrames address tc' post st'
      | other => other
      end.
Proof.
  induction pre as [| fr pre IH]; intros tc st; simpl.
  - reflexivity.
  - unfold bind.
    destruct (processFrame address tc fr st) as [[tc' | e | msg |] st'];
      try reflexivity.
    apply IH.
Qed.

(** A batch that went through: every frame qualified against the
    snapshot the batch started from, every frame is persisted, in order,
    and the live trie received each frame once. *)
Lemma processFrames_ok (address : bytes) (tc0 : Trie.t)
    (frames : list ClockFrame) :
  forall (tc tc' : Trie.t) (st st' : Engine),
    standing tc0 tc ->
    processFrames address tc frames st = (Ok tc', st') ->
    standing tc0 tc'
    /\ Forall (qualifies tc0) frames
    /\ map row_frame (candidates st')
       = map row_frame (candidates st) ++ frames
    /\ frameSeenProverTrie st' = foldl addSeen (frameSeenProverTrie st) frames
    /\ frameProverTrie st' = frameProverTrie st
    /\ syncingStatus st' = syncingStatus st.
Proof.
  induction frames as [| fr rest IH]; intros tc tc' st st' Hst Hrun.
  - inversion Hrun; subst. rewrite app_nil_r. auto 10.
  - simpl in Hrun. unfold bind in Hrun.
    pose proof (processFrame_cases address tc fr st) as Hstep.
    destruct (processFrame address tc fr st) as [[tc1 | e | msg |] st1];
      try discriminate.
    destruct Hstep as (Hadm & Htc1 & Hcand & Hseen & Hprover & Hsync).
    assert (Hst1 : standing tc0 tc1).
    { subst tc1. destruct Hadm as (prover & Haddr & Hc & He).
      unfold addSeen. rewrite Haddr. apply standing_Add; assumption. }
    assert (Hadm0 : qualifies tc0 fr).
    { destruct Hadm as (prover & Haddr & Hc & He).
      exists prover. destruct (Hst prover) as [Heq Hcnt].
      split; [exact Haddr |]. split; [auto | lia]. }
    destruct (IH tc1 tc' st1 st' Hst1 Hrun)
      as (Hst' & Hall & Hcand' & Hseen' & Hprover' & Hsync').
    split; [exact Hst' |]. split; [constructor; assumption |].
    split; [rewrite Hcand', Hcand, <- app_assoc; reflexivity |].
    split; [rewrite Hseen', Hseen; reflexivity |].
    split; congruence.
Qed.

(** Any run of the batch is a successful run of a prefix, followed, when
    the batch did not go through, by the failing pass on the next
    frame. *)
Lemma processFrames_prefix (address : bytes) (frames : list ClockFrame) :
  forall (tc : Trie.t) (st : Engine),
    exists (k : nat) (tck : Trie.t),
      (k <= length frames)%nat
      /\ processFrames address tc (take k frames) st
         = (Ok tck, (processFrames address tc frames st).2)
      /\ match (processFrames address tc frames st).1 with
         | Ok tc' => k = length frames /\ tc' = tck
         | r =>
             exists fr, frames !! k = Some fr
               /\ processFrame address tck fr
                    (processFrames address tc frames st).2
                  = (r, (processFrames address tc frames st).2)
         end.
Proof.
  induction frames as [| fr rest IH]; intros tc st.
  - exists O, tc. simpl. auto.
  - simpl. unfold bind.
    pose proof (processFrame_cases address tc fr st) as Hstep.
    destruct (processFrame address tc fr st) as [[tc1 | e | msg |] st1] eqn:Hfr.
    + destruct (IH tc1 st1) as (k & tck & Hk & Hpre & Hlast).
      exists (S k), tck. split; [simpl; lia |].
      split.
      * simpl. unfold bind. rewrite Hfr. exact Hpre.
      * destruct ((processFrames address tc1 rest st1).1);
          simpl; [destruct Hlast; split; congruence | exact Hlast ..].
    + subst st1. exists O, tc. simpl. split; [lia |].
      split; [reflexivity |]. exists fr. split; [reflexivity | exact Hfr].
    + subst st1. exists O, tc. simpl. split; [lia |].
      split; [reflexivity |]. exists fr. split; [reflexivity | exact Hfr].
    + subst st1. exists O, tc. simpl. split; [lia |].
      split; [reflexivity |]. exists fr. split; [reflexivity | exact Hfr].
Qed.

(** Past the gate, the handler is the batch loop on a copy of
    [frameProverTrie], bracketed by the two status updates. *)
Lemma handleClockFramesResponse_on_target (st : Engine)
    (peerID address : bytes) (any : Any) (response : ClockFramesResponse) :
  peerID <> GetPeerID ->
  peerID = syncingTarget st ->
  UnmarshalTo_ClockFramesResponse any = Val response ->
  Serialize_err (frameProverTrie st) = None ->
  Deserialize_err (Trie.Serialize (frameProverTrie st)) = None ->
  handleClockFramesResponse peerID address any st =
    let batch :=
      processFrames address (frameProverTrie st) (ClockFrames response)
        (set_syncingStatus SyncStatusSynchronizing st) in
    (verdict batch.1, set_syncingStatus SyncStatusNotSyncing batch.2).
Proof.
  intros Hpeer Htarget Hrsp Hser Hde.
  unfold handleClockFramesResponse, bytes_Equal, bind, get, modify, defer.
  rewrite bool_decide_eq_false_2 by exact Hpeer.
  rewrite bool_decide_eq_true_2 by exact Htarget.
  cbn beta iota delta [negb]. rewrite Hrsp. unfold try, ret.
  cbn beta iota delta [frameProverTrie set_syncingStatus].
  rewrite Hser. unfold tryErr. cbn beta iota. rewrite Hde.
  rewrite Trie_roundtrip. unfold ret. cbn beta iota.
  destruct (processFrames _ _ _ _) as [[tc' | e | msg |] st']; reflexivity.
Qed.

End Batch.

Section BatchClaims.

Context `{FrameOps} `{Crypto} `{Node}.

Lemma processFrame_rejected (address : bytes) (tc : Trie.t)
    (fr : ClockFrame) (st : Engine) :
  rejected tc fr ->
  processFrame address tc fr st =
    (Err (ErrWrap (ErrNew "prover not in trie")
            "handle clock frame response"), st).
Proof.
  intros (prover & Haddr & Hrej). unfold processFrame.
  unfold bind at 1. rewrite Haddr. unfold try at 1, ret at 1.
  destruct (Trie.Get tc prover) as [[earliest latest] count].
  simpl in Hrej.
  replace ((count =? 0) || (earliest >=? FrameNumber fr)) with true;
    [reflexivity |].
  symmetry. apply orb_true_iff. destruct Hrej as [Hc | He].
  - left. apply Z.eqb_eq. exact Hc.
  - right. rewrite Z.geb_leb. apply Z.leb_le. lia.
Qed.

(** A frame the snapshot rejects is rejected by the loop's copy as well,
    whatever the batch has added to the copy in the meantime. *)
Lemma rejected_standing (tc0 tc : Trie.t) (fr : ClockFrame) :
  standing tc0 tc -> rejected tc0 fr -> rejected tc fr.
Proof.
  intros Hst (prover & Haddr & Hrej). exists prover.
  split; [exact Haddr |]. destruct (Hst prover) as [He Hc].
  destruct Hrej as [Hzero | Hearly].
  - left. destruct (decide ((Trie.Get tc prover).2 = 0)) as [Hz | Hnz];
      [exact Hz | exfalso; exact (Hc Hnz Hzero)].
  - right. lia.
Qed.

(** C1. Past the gate, the frames the handler persists are a prefix of
    the batch, and each of them has its prover in the snapshot of
    [frameProverTrie] taken for the batch, with a non-zero count and an
    earliest frame strictly below the frame's number. Conversely, when
    the loop reaches a frame for which the lookup (in the snapshot, or in
    the loop's copy of it) yields a zero count or an earliest frame at or
    above the frame's number, the handler returns the error
    ["prover not in trie"] and the engine is left as that frame found it:
    neither it nor any later frame of the batch is processed. *)
Theorem C1_acceptance_requires_trie_membership (st : Engine)
    (peerID address : bytes) (any : Any) (response : ClockFramesResponse) :
  peerID <> GetPeerID ->
  peerID = syncingTarget st ->
  UnmarshalTo_ClockFramesResponse any = Val response ->
  Serialize_err (frameProverTrie st) = None ->
  Deserialize_err (Trie.Serialize (frameProverTrie st)) = None ->
  let result := handleClockFramesResponse peerID address any st in
  let frames := ClockFrames response in
  let snapshot := frameProverTrie st in
  (exists k : nat,
      map row_frame (candidates result.2)
        = map row_frame (candidates st) ++ take k frames
      /\ Forall (qualifies snapshot) (take k frames))
  /\ (forall (pre post : list ClockFrame) (fr : ClockFrame)
             (tc : Trie.t) (st1 : Engine),
        frames = pre ++ fr :: post ->
        processFrames address snapshot pre
          (set_syncingStatus SyncStatusSynchronizing st) = (Ok tc, st1) ->
        rejected tc fr \/ rejected snapshot fr ->
        result =
          (Err (ErrWrap (ErrNew "prover not in trie")
                  "handle clock frame response"),
           set_syncingStatus SyncStatusNotSyncing st1)).
Proof.
  intros Hpeer Htarget Hrsp Hser Hde result frames snapshot.
  subst result.
  rewrite (handleClockFramesResponse_on_target st peerID address any
             response Hpeer Htarget Hrsp Hser Hde).
  cbv zeta. fold frames snapshot. split.
  - destruct (processFrames_prefix address frames snapshot
                (set_syncingStatus SyncStatusSynchronizing st))
      as (k & tck & Hk & Hpre & _).
    destruct (processFrames_ok address snapshot (take k frames) snapshot tck
                _ _ (standing_refl snapshot) Hpre)
      as (_ & Hall & Hcand & _).
    exists k. split; [exact Hcand | exact Hall].
  - intros pre post fr tc st1 Hsplit Hpre Hrej.
    destruct (processFrames_ok address snapshot pre snapshot tc
                _ _ (standing_refl snapshot) Hpre) as (Hst & _).
    assert (Hrej' : rejected tc fr).
    { destruct Hrej as [Hnow | Hsnap]; [exact Hnow |].
      exact (rejected_standing snapshot tc fr Hst Hsnap). }
    rewrite Hsplit, processFrames_app, Hpre. simpl processFrames.
    unfold bind. rewrite (processFrame_rejected address tc fr st1 Hrej').
    reflexivity.
Qed.


End BatchClaims.

Lemma C1_witness :
  Fixture.mixedRun.1 = Err (ErrWrap (ErrNew "prover not in trie")
                              "handle clock frame response")
  /\ map FrameNumber (map row_frame (candidates Fixture.mixedRun.2)) = [5].
Proof.
  destruct (@C1_acceptance_requires_trie_membership Fixture.frameOps
              Fixture.crypto Fixture.mixedNode Fixture.engine0 Fixture.peer1
              [] Fixture.anyMsg (Fixture.batch Fixture.mixedBatch))
    as [_ Hstop].
  - vm_compute. discriminate.
  - reflexivity.
  - reflexivity.
  - reflexivity.
  - reflexivity.
  - unfold Fixture.mixedRun.
    rewrite (Hstop [Fixture.bareFrame 5 Fixture.prover1]
               [Fixture.bareFrame 7 Fixture.prover1]
               (Fixture.bareFrame 6 Fixture.peer2)
               (@addSeen Fixture.frameOps (frameProverTrie Fixture.engine0)
                  (Fixture.bareFrame 5 Fixture.prover1))
               (@processFrames Fixture.frameOps Fixture.crypto
                  Fixture.mixedNode []
                  (frameProverTrie Fixture.engine0)
                  [Fixture.bareFrame 5 Fixture.prover1]
                  (set_syncingStatus SyncStatusSynchronizing
                     Fixture.engine0)).2).
    + split; vm_compute; reflexivity.
    + reflexivity.
    + vm_compute. reflexivity.
    + right. exists Fixture.peer2. split; [reflexivity |].
      left. vm_compute. reflexivity.
Defined.


(** ** The range server: how much is published *)

Section RangeBound.

Context `{FrameOps} `{Node}.

Variable w : nat.
Hypothesis w_positive : (1 <= w)%nat.
Hypothesis bucket_width :
  forall (flt selector : bytes) (n : Z) (it : Iterator),
    RangeCandidateDataClockFrames flt selector n = Val it ->
    (length it <= w)%nat.

Lemma iterLoop_bound (topic : bytes) (it : Iterator) :
  forall (nextSpan set : list ClockFrame) (s : Engine),
    (length (published (iterLoop topic it nextSpan set s).2)
       <= length (published s) + length it)%nat
    /\ match (iterLoop topic it nextSpan set s).1 with
       | Ok (nextSpan', _) =>
           (length nextSpan' <= length nextSpan + length it)%nat
       | OutOfFuel => False
       | _ => True
       end.
Proof.
  induction it as [| value rest IH]; intros nextSpan set s.
  - simpl. split; lia.
  - simpl iterLoop. unfold bind, try, wrap, publishMessage, ret, throw.
    destruct value as [fr | e]; [| simpl; split; [lia | exact I]].
    destruct (publish_err (published s) topic (MsgClockFrame fr));
      [simpl; split; [lia | exact I] |].
    specialize (IH (nextSpan ++ [fr]) (set ++ [fr])
                  (set_published
                     (published s ++ [(topic, MsgClockFrame fr)]) s)).
    destruct IH as [Hpub Hspan]. split.
    + etransitivity; [exact Hpub |]. simpl published.
      rewrite length_app. simpl. lia.
    + destruct (iterLoop _ _ _ _ _).1 as [[nextSpan' set'] | | |];
        try exact Hspan.
      rewrite length_app in Hspan. simpl in Hspan. simpl. lia.
Qed.

Lemma scanFrame_bound (topic : bytes) (s : ClockFrame)
    (noMoreFinalized : bool) (nextSpan set : list ClockFrame)
    (st : Engine) :
  (length (published
             (scanFrame topic s noMoreFinalized nextSpan set st).2)
     <= length (published st) + w)%nat
  /\ match (scanFrame topic s noMoreFinalized nextSpan set st).1 with
     | Ok (_, nextSpan', _) =>
         (length nextSpan' <= length nextSpan + w)%nat
     | OutOfFuel => False
     | _ => True
     end.
Proof.
  unfold scanFrame, bind, try, wrap, publishMessage, openIterator,
    iter_Close, modify, ret, throw.
  destruct (GetSelector s) as [selector | e];
    [| simpl; split; [lia | exact I]].
  destruct noMoreFinalized; simpl.
  - destruct (RangeCandidateDataClockFrames _ _ _) as [it | e] eqn:Hit;
      [| simpl; split; [lia | exact I]].
    apply bucket_width in Hit.
    pose proof (iterLoop_bound topic it nextSpan set
                  (set_openIterators (S (openIterators st)) st))
      as [Hpub Hspan].
    cbn beta iota zeta.
    destruct (iterLoop topic it nextSpan set _)
      as [[[nextSpan1 set1] | e | msg |] s1];
      simpl in Hpub, Hspan |- *; split; try exact Hspan; lia.
  - destruct (GetDataClockFrame (Filter s) (u64 (FrameNumber s + 1)))
      as [fr | err].
    + destruct (publish_err (published st) topic (MsgClockFrame fr));
        [simpl; split; [lia | exact I] |].
      simpl. rewrite !length_app. simpl. split; lia.
    + destruct (errors_Is_NotFound err);
        [| simpl; split; [lia | exact I]].
      destruct (RangeCandidateDataClockFrames _ _ _) as [it | e] eqn:Hit;
        [| simpl; split; [lia | exact I]].
      apply bucket_width in Hit.
      pose proof (iterLoop_bound topic it nextSpan set
                    (set_openIterators (S (openIterators st)) st))
        as [Hpub Hspan].
      cbn beta iota zeta.
      destruct (iterLoop topic it nextSpan set _)
        as [[[nextSpan1 set1] | e | msg |] s1];
        simpl in Hpub, Hspan |- *; split; try exact Hspan; lia.
Qed.

Lemma scanSpan_bound (topic : bytes) (searchSpan : list ClockFrame) :
  forall (noMoreFinalized : bool) (nextSpan set : list ClockFrame)
         (st : Engine),
    (length (published
               (scanSpan topic searchSpan noMoreFinalized nextSpan set st).2)
       <= length (published st) + w * length searchSpan)%nat
    /\ match (scanSpan topic searchSpan noMoreFinalized nextSpan set st).1
       with
       | Ok (_, nextSpan', _) =>
           (length nextSpan'
              <= length nextSpan + w * length searchSpan)%nat
       | OutOfFuel => False
       | _ => True
       end.
Proof.
  induction searchSpan as [| s rest IH];
    intros noMoreFinalized nextSpan set st.
  - simpl. split; lia.
  - simpl scanSpan. unfold bind.
    pose proof (scanFrame_bound topic s noMoreFinalized nextSpan set st)
      as [Hpub Hspan].
    destruct (scanFrame topic s noMoreFinalized nextSpan set st)
      as [[[[nmf nextSpan1] set1] | e | msg |] st1];
      simpl in Hpub, Hspan |- *; try (split; [lia | exact Hspan]).
    specialize (IH nmf nextSpan1 set1 st1). destruct IH as [Hpub' Hspan'].
    split.
    + lia.
    + destruct (scanSpan _ _ _ _ _ _).1 as [[[nmf' nextSpan'] set'] | | |];
        try exact Hspan'.
      lia.
Qed.

Lemma scanLoop_eq (fuel : nat) (topic : bytes) (from to : Z)
    (searchSpan : list ClockFrame) (noMoreFinalized : bool)
    (currentNumber : Z) (set : list ClockFrame) :
  scanLoop fuel topic from to searchSpan noMoreFinalized currentNumber set =
    if negb (length searchSpan =? 0)%nat
       && (u64 (from + u64 currentNumber) <=? to)
    then
      match fuel with
      | O => outOfFuel
      | S fuel' =>
          do '(noMoreFinalized, nextSpan, set) <-
            scanSpan topic searchSpan noMoreFinalized [] set;
          scanLoop fuel' topic from to nextSpan noMoreFinalized
            (int64 (currentNumber + 1)) set
      end
    else ret tt.
Proof. destruct fuel; reflexivity. Qed.

(** One round past the last height the loop test fails, unless the last
    height is the largest [uint64]. *)
Lemma scan_exit (from to : Z) :
  0 <= from < two64 -> 0 <= to < two64 - 1 -> u64 (to - from) <= 32 ->
  (u64 (from + u64 (u64 (to - from) + 1)) <=? to) = false.
Proof.
  intros Hf Ht Hd. apply Z.leb_gt.
  pose proof (u64_range (to - from)) as Hr.
  rewrite (u64_small (u64 (to - from) + 1)) by (unfold two64 in *; lia).
  unfold u64, two64 in *. Z.div_mod_to_equations. lia.
Qed.

(** With [rounds] bounding the rounds still to run, the loop ends within
    its fuel and publishes at most [fanOutBound w rounds] messages per
    frame of its starting span. *)
Lemma scanLoop_bound (topic : bytes) (from to : Z) :
  0 <= from < two64 -> 0 <= to < two64 - 1 -> u64 (to - from) <= 32 ->
  forall (rounds fuel : nat) (c : Z) (searchSpan : list ClockFrame)
         (noMoreFinalized : bool) (set : list ClockFrame) (st : Engine),
    1 <= c <= u64 (to - from) + 1 ->
    u64 (to - from) + 1 <= c + Z.of_nat rounds ->
    (rounds <= fuel)%nat ->
    (scanLoop fuel topic from to searchSpan noMoreFinalized c set st).1
      <> OutOfFuel
    /\ (length (published
                  (scanLoop fuel topic from to searchSpan noMoreFinalized
                     c set st).2)
          <= length (published st)
             + length searchSpan * fanOutBound w rounds)%nat.
Proof.
  intros Hf Ht Hd. pose proof (u64_range (to - from)) as Hr.
  induction rounds as [| rounds IH];
    intros fuel c searchSpan noMoreFinalized set st Hc Hrounds Hfuel;
    rewrite scanLoop_eq.
  - assert (c = u64 (to - from) + 1) as -> by lia.
    rewrite scan_exit by assumption. rewrite andb_false_r.
    simpl. split; [discriminate | lia].
  - destruct (negb (length searchSpan =? 0)%nat
              && (u64 (from + u64 c) <=? to)) eqn:Hcond;
      [| simpl; split; [discriminate | lia]].
    apply andb_true_iff in Hcond as [_ Hle].
    assert (Hnotlast : c <> u64 (to - from) + 1).
    { intros ->. rewrite scan_exit in Hle by assumption. discriminate. }
    destruct fuel as [| fuel]; [lia |].
    unfold bind.
    pose proof (scanSpan_bound topic searchSpan noMoreFinalized [] set st)
      as [Hpub Hspan].
    destruct (scanSpan topic searchSpan noMoreFinalized [] set st)
      as [[[[nmf nextSpan] set'] | e | msg |] st1];
      simpl in Hpub, Hspan |- *;
      try (split; [discriminate | nia]); [| contradiction].
    rewrite int64_small by (unfold two63; lia).
    destruct (IH fuel (c + 1) nextSpan nmf set' st1) as [Hfin Hbound];
      [lia | lia | lia |].
    split; [exact Hfin |].
    etransitivity; [exact Hbound |].
    assert (length nextSpan * fanOutBound w rounds
            <= w * length searchSpan * fanOutBound w rounds)%nat
      by (apply Nat.mul_le_mono_r; lia).
    nia.
Qed.

End RangeBound.

Section RangeClaims.

Context `{FrameOps} `{Node}.


End RangeClaims.



(** ** The range server: iterators *)

Section Iterators.

Context `{FrameOps} `{Node}.

Lemma iterLoop_open (topic : bytes) (it : Iterator) :
  forall (nextSpan set : list ClockFrame) (s : Engine),
    openIterators (iterLoop topic it nextSpan set s).2 = openIterators s.
Proof.
  induction it as [| value rest IH]; intros nextSpan set s.
  - reflexivity.
  - simpl iterLoop. unfold bind, try, wrap, publishMessage, ret, throw.
    destruct value as [fr | e]; [| reflexivity].
    destruct (publish_err (published s) topic (MsgClockFrame fr));
      [reflexivity |].
    rewrite IH. reflexivity.
Qed.

Lemma scanFrame_open (topic : bytes) (s : ClockFrame)
    (noMoreFinalized : bool) (nextSpan set : list ClockFrame) :
  leaksAtMostOne (scanFrame topic s noMoreFinalized nextSpan set).
Proof.
  intros st.
  unfold scanFrame, bind, try, wrap, publishMessage, openIterator,
    iter_Close, modify, ret, throw.
  destruct (GetSelector s) as [selector | e]; [| simpl; lia].
  destruct noMoreFinalized; simpl.
  - destruct (RangeCandidateDataClockFrames _ _ _) as [it | e];
      [| simpl; lia].
    pose proof (iterLoop_open topic it nextSpan set
                  (set_openIterators (S (openIterators st)) st)) as Hopen.
    cbn beta iota zeta.
    destruct (iterLoop topic it nextSpan set _)
      as [[[nextSpan1 set1] | e | msg |] s1];
      simpl in Hopen |- *; rewrite Hopen; simpl; lia.
  - destruct (GetDataClockFrame (Filter s) (u64 (FrameNumber s + 1)))
      as [fr | err].
    + destruct (publish_err (published st) topic (MsgClockFrame fr));
        simpl; lia.
    + destruct (errors_Is_NotFound err); [| simpl; lia].
      destruct (RangeCandidateDataClockFrames _ _ _) as [it | e];
        [| simpl; lia].
      pose proof (iterLoop_open topic it nextSpan set
                    (set_openIterators (S (openIterators st)) st)) as Hopen.
      cbn beta iota zeta.
      destruct (iterLoop topic it nextSpan set _)
        as [[[nextSpan1 set1] | e | msg |] s1];
        simpl in Hopen |- *; rewrite Hopen; simpl; lia.
Qed.

Lemma leaksAtMostOne_bind {A B} (m : M A) (k : A -> M B) :
  leaksAtMostOne m -> (forall a, leaksAtMostOne (k a)) ->
  leaksAtMostOne (bind m k).
Proof.
  intros Hm Hk s. unfold bind. specialize (Hm s).
  destruct (m s) as [[a | e | msg |] s1]; simpl in Hm |- *; try exact Hm.
  specialize (Hk a s1). destruct (k a s1).1; lia.
Qed.

Lemma leaksAtMostOne_ret {A} (a : A) : leaksAtMostOne (ret a).
Proof. intros s. reflexivity. Qed.

Lemma scanSpan_open (topic : bytes) (searchSpan : list ClockFrame) :
  forall (noMoreFinalized : bool) (nextSpan set : list ClockFrame),
    leaksAtMostOne (scanSpan topic searchSpan noMoreFinalized nextSpan set).
Proof.
  induction searchSpan as [| s rest IH]; intros noMoreFinalized nextSpan set.
  - apply leaksAtMostOne_ret.
  - simpl. apply leaksAtMostOne_bind; [apply scanFrame_open |].
    intros [[nmf nextSpan1] set1]. apply IH.
Qed.

Lemma scanLoop_open (topic : bytes) (from to : Z) (fuel : nat) :
  forall (searchSpan : list ClockFrame) (noMoreFinalized : bool) (c : Z)
         (set : list ClockFrame),
    leaksAtMostOne
      (scanLoop fuel topic from to searchSpan noMoreFinalized c set).
Proof.
  induction fuel as [| fuel IH]; intros searchSpan noMoreFinalized c set;
    simpl; destruct (_ && _); try apply leaksAtMostOne_ret.
  - intros s. simpl. lia.
  - apply leaksAtMostOne_bind; [apply scanSpan_open |].
    intros [[nmf nextSpan] set']. apply IH.
Qed.

(** The handler closes what it opened whenever it returns [nil]; any other
    way out leaves at most one iterator open. *)
Lemma handleClockFramesRequest_open (fuel : nat) (peerID address : bytes)
    (any : Any) :
  leaksAtMostOne (handleClockFramesRequest fuel peerID address any).
Proof.
  intros st.
  unfold handleClockFramesRequest, bind, get, Subscribe, modify, try, wrap,
    publishMessage, ret, throw.
  destruct (bytes_Equal peerID GetPeerID); [reflexivity |].
  destruct (UnmarshalTo_ClockFramesRequest any) as [request | e];
    [| simpl; lia].
  cbn beta iota zeta.
  destruct (GetDataClockFrame (req_Filter request) (FromFrameNumber request))
    as [base | err].
  - exact (scanLoop_open (filter st ++ peerID) (FromFrameNumber request)
             (clampTo (FromFrameNumber request) (ToFrameNumber request))
             fuel [base] false 1 [base]
             (set_subscriptions (subscriptions st ++ [filter st ++ peerID])
                st)).
  - destruct (errors_Is_NotFound err); simpl; [| lia].
    destruct (publish_err _ _ _); simpl; lia.
Qed.

End Iterators.

(** ** The range server on a finalized chain *)

Section FinalizedChain.

Context `{FrameOps} `{Node}.

Variables (topic flt : bytes) (from to : Z) (F : Z -> ClockFrame).

Hypothesis heights_in_range : 0 <= from /\ to < two64 - 1.

(** The store holds [F h] as the finalized frame of every height [h] of
    [from .. to], filed under its own filter and height. *)
Hypothesis chain_stored :
  forall h, from <= h <= to ->
    GetDataClockFrame flt h = Val (F h)
    /\ Filter (F h) = flt
    /\ FrameNumber (F h) = h
    /\ exists selector, GetSelector (F h) = Val selector.

Hypothesis publish_succeeds :
  forall log t m, publish_err log t m = None.

Lemma scanFrame_finalized (h : Z) (nextSpan set : list ClockFrame)
    (st : Engine) :
  from <= h < to ->
  scanFrame topic (F h) false nextSpan set st =
    (Ok (false, nextSpan ++ [F (h + 1)], set ++ [F (h + 1)]),
     set_published (published st ++ [(topic, MsgClockFrame (F (h + 1)))]) st).
Proof.
  intros Hh.
  destruct (chain_stored h ltac:(lia)) as (_ & Hflt & Hnum & selector & Hsel).
  destruct (chain_stored (h + 1) ltac:(lia)) as (Hnext & _).
  unfold scanFrame, bind, try, wrap, publishMessage, ret, throw.
  rewrite Hsel, Hflt, Hnum.
  rewrite u64_small by (unfold two64 in *; lia).
  rewrite Hnext. cbn beta iota zeta delta [negb].
  rewrite publish_succeeds. reflexivity.
Qed.

Lemma set_published_same (st : Engine) :
  set_published (published st) st = st.
Proof. destruct st. reflexivity. Qed.

(** From round [c] on, the loop publishes the finalized frames of the
    heights [from + c .. to], in ascending order, and nothing else. *)
Lemma scanLoop_finalized :
  forall (rounds fuel : nat) (c : Z) (set : list ClockFrame) (st : Engine),
    1 <= c ->
    from + c + Z.of_nat rounds = to + 1 ->
    c + Z.of_nat rounds < two63 ->
    (rounds <= fuel)%nat ->
    scanLoop fuel topic from to [F (from + c - 1)] false c set st =
      (Ok tt,
       set_published
         (published st
            ++ ((fun h => (topic, MsgClockFrame (F h)))
                  <$> seqZ (from + c) (Z.of_nat rounds))) st).
Proof.
  induction rounds as [| rounds IH];
    intros fuel c set st Hc Hsum Hint Hfuel;
    rewrite scanLoop_eq; rewrite (u64_small c) by (unfold two64 in *; lia);
    rewrite u64_small by (unfold two64 in *; lia).
  - replace (from + c <=? to) with false by (symmetry; apply Z.leb_gt; lia).
    simpl. rewrite app_nil_r, set_published_same. reflexivity.
  - replace (from + c <=? to) with true by (symmetry; apply Z.leb_le; lia).
    change (negb (length [F (from + c - 1)] =? 0)%nat && true) with true.
    cbv iota.
    destruct fuel as [| fuel]; [lia |].
    unfold bind. simpl scanSpan. unfold bind.
    rewrite scanFrame_finalized by lia. unfold ret. cbv beta iota.
    rewrite int64_small by (unfold two63, two64 in *; lia).
    replace (from + c - 1 + 1) with (from + (c + 1) - 1) by lia.
    rewrite app_nil_l.
    rewrite IH by lia.
    rewrite (seqZ_cons (from + c)) by lia.
    replace (Z.succ (from + c)) with (from + (c + 1)) by lia.
    replace (Z.pred (Z.of_nat (S rounds))) with (Z.of_nat rounds) by lia.
    replace (from + (c + 1) - 1) with (from + c) by lia.
    simpl. rewrite <- app_assoc. reflexivity.
Qed.

(** On a chain finalized over [from .. to], a request for that range (with
    [to] not zero and at most 32 above [from]) gets the finalized frames of
    the heights [from + 1 .. to] published in ascending order on
    [filter || peer_id]; the frame at [from] is not among them. *)
Lemma handleClockFramesRequest_finalized_range (fuel : nat) (st : Engine)
    (peerID address : bytes) (any : Any) (request : ClockFramesRequest) :
  peerID <> GetPeerID ->
  topic = filter st ++ peerID ->
  UnmarshalTo_ClockFramesRequest any = Val request ->
  req_Filter request = flt ->
  FromFrameNumber request = from ->
  ToFrameNumber request = to ->
  0 < to -> from <= to <= from + 32 ->
  (Z.to_nat (to - from) <= fuel)%nat ->
  handleClockFramesRequest fuel peerID address any st =
    (Ok tt,
     set_published
       (published st
          ++ ((fun h => (topic, MsgClockFrame (F h)))
                <$> seqZ (from + 1) (to - from)))
       (set_subscriptions (subscriptions st ++ [topic]) st)).
Proof.
  intros Hpeer Htopic Hreq Hflt Hfrom Hto Hpos Hwidth Hfuel.
  destruct (chain_stored from ltac:(lia)) as (Hbase & _).
  rewrite (handleClockFramesRequest_resolved fuel st peerID address any
             request (F from) Hpeer Hreq) by (rewrite Hflt, Hfrom; exact Hbase).
  rewrite Hfrom, Hto, <- Htopic.
  assert (Hclamp : clampTo from to = to).
  { unfold clampTo. rewrite u64_small by (unfold two64 in *; lia).
    replace (to =? 0) with false by (symmetry; apply Z.eqb_neq; lia).
    replace (to - from >? 32) with false; [reflexivity |].
    symmetry. rewrite Z.gtb_ltb. apply Z.ltb_ge. lia. }
  rewrite Hclamp.
  replace (F from) with (F (from + 1 - 1)) by (f_equal; lia).
  rewrite (scanLoop_finalized (Z.to_nat (to - from)) fuel 1)
    by (unfold two63; lia).
  rewrite Z2Nat.id by lia. reflexivity.
Qed.

End FinalizedChain.

(** Scenario S5 is an instance: the request for [10, 14] publishes the
    heights 11 to 14. *)
Example finalized_range_S5 :
  Fixture.rangeRun =
    (Ok tt,
     set_published
       ((fun h => (filter Fixture.engine0 ++ Fixture.peer1,
                   MsgClockFrame (Fixture.bareFrame h [])))
          <$> seqZ 11 4)
       (set_subscriptions [filter Fixture.engine0 ++ Fixture.peer1]
          Fixture.engine0)).
Proof.
  unfold Fixture.rangeRun.
  rewrite (@handleClockFramesRequest_finalized_range Fixture.frameOps
             Fixture.rangeNode (filter Fixture.engine0 ++ Fixture.peer1)
             [Byte.xf0] 10 14 (fun h => Fixture.bareFrame h []))
    with (request := Fixture.rangeRequest 10 14).
  - reflexivity.
  - unfold two64. lia.
  - intros h Hh.
    assert (h = 10 \/ h = 11 \/ h = 12 \/ h = 13 \/ h = 14) as Hcases by lia.
    destruct Hcases as [-> | [-> | [-> | [-> | ->]]]];
      (split; [reflexivity |]; split; [reflexivity |];
       split; [reflexivity |]; eexists; reflexivity).
  - reflexivity.
  - vm_compute. discriminate.
  - reflexivity.
  - reflexivity.
  - reflexivity.
  - reflexivity.
  - reflexivity.
  - lia.
  - lia.
  - simpl. lia.
Qed.

(** * Further properties *)

(** ** The response handler: what a batch changes *)

Section BatchEffect.

Context `{FrameOps} `{Crypto} `{Node}.

(** The engine after a pass of the loop body that went through. *)
Lemma processFrame_effect (address : bytes) (tc : Trie.t) (fr : ClockFrame)
    (st : Engine) :
  match processFrame address tc fr st with
  | (Ok _, st') =>
      exists (prover : bytes) (ps sel dist : Z),
        GetAddress fr = Val prover
        /\ GetParentSelectorAndDistance fr = Val (ps, sel, dist)
        /\ st' =
             let row := {| row_parentSelector := big_Bytes ps;
                           row_distance := big_Bytes dist;
                           row_selector := big_Bytes sel;
                           row_frame := fr |} in
             let st1 := set_candidates (candidates st ++ [row]) st in
             set_frameSeenProverTrie
               (Trie.Add (frameSeenProverTrie st) prover (FrameNumber fr))
               (if frame st <? FrameNumber fr
                then set_received (FrameNumber fr) (time_Now st1) st1
                else st1)
  | _ => True
  end.
Proof.
  unfold processFrame. unfold bind at 1.
  destruct (GetAddress fr) as [prover | e]; [| exact I].
  unfold try at 1, ret at 1.
  destruct (Trie.Get tc prover) as [[earliest latest] count].
  destruct ((count =? 0) || (earliest >=? FrameNumber fr)); [exact I |].
  unfold bind at 1.
  destruct (VerifyDataClockFrame fr); [exact I |].
  unfold tryErr at 1, ret at 1. unfold bind at 1.
  pose proof (stateless_parseAggregateCommitments (Input fr)
                (aggregateCommitmentCount (Input fr)) 0 [] st) as Hparse.
  destruct (parseAggregateCommitments _ _ _ _ st) as [r1 s1].
  simpl in Hparse. subst s1.
  destruct r1 as [acs | e | msg |]; try exact I.
  unfold bind at 1.
  pose proof (stateless_verifyAggregateProofs acs (AggregateProofs fr) 0 st)
    as Hverify.
  destruct (verifyAggregateProofs _ _ _ st) as [r2 s2].
  simpl in Hverify. subst s2.
  destruct r2 as [[] | e | msg |]; try exact I.
  unfold bind at 1.
  destruct (GetParentSelectorAndDistance fr) as [[[ps sel] dist] | e];
    [| exact I].
  unfold try at 1, ret at 1.
  unfold bind at 1, wrap at 1, NewTransaction.
  destruct (NewTransaction_err (candidates st)); [exact I |].
  unfold bind at 1, wrap at 1, PutCandidateDataClockFrame.
  destruct (PutCandidateDataClockFrame_err _ _); [exact I |].
  unfold bind at 1, wrap at 1, Commit.
  destruct (Commit_err _ _); [exact I |].
  unfold bind, get, modify, ret. simpl.
  destruct (frame st <? FrameNumber fr); simpl;
    exists prover, ps, sel, dist; split; [reflexivity | | reflexivity |];
    split; reflexivity.
Qed.

Lemma batchKeeps_refl (st : Engine) : batchKeeps st st.
Proof.
  unfold batchKeeps. repeat (split; [reflexivity |]).
  exists []. symmetry. apply app_nil_r.
Qed.

Lemma batchKeeps_trans (st1 st2 st3 : Engine) :
  batchKeeps st1 st2 -> batchKeeps st2 st3 -> batchKeeps st1 st3.
Proof.
  unfold batchKeeps.
  intros (Ha1 & Ha2 & Ha3 & Ha4 & Ha5 & Ha6 & Ha7 & Ha8 & rows1 & Ha9)
         (Hb1 & Hb2 & Hb3 & Hb4 & Hb5 & Hb6 & Hb7 & Hb8 & rows2 & Hb9).
  repeat (split; [congruence |]).
  exists (rows1 ++ rows2). rewrite Hb9, Ha9, app_assoc. reflexivity.
Qed.

Lemma processFrame_keeps (address : bytes) (tc : Trie.t) (fr : ClockFrame)
    (st : Engine) :
  batchKeeps st (processFrame address tc fr st).2.
Proof.
  pose proof (processFrame_effect address tc fr st) as Heff.
  pose proof (processFrame_cases address tc fr st) as Hcases.
  destruct (processFrame address tc fr st) as [[tc' | e | msg |] st'];
    simpl; try (subst st'; apply batchKeeps_refl).
  destruct Heff as (prover & ps & sel & dist & _ & _ & ->).
  cbv zeta. unfold batchKeeps.
  destruct (frame st <? FrameNumber fr); simpl;
    repeat (split; [reflexivity |]); eexists; reflexivity.
Qed.

Lemma processFrames_keeps (address : bytes) (frames : list ClockFrame) :
  forall (tc : Trie.t) (st : Engine),
    batchKeeps st (processFrames address tc frames st).2.
Proof.
  induction frames as [| fr rest IH]; intros tc st; simpl.
  - apply batchKeeps_refl.
  - unfold bind.
    pose proof (processFrame_keeps address tc fr st) as Hstep.
    destruct (processFrame address tc fr st) as [[tc' | e | msg |] st'];
      simpl in Hstep |- *; try exact Hstep.
    eapply batchKeeps_trans; [exact Hstep | apply IH].
Qed.

(** X1. Whatever the message, [handleClockFramesResponse] leaves alone
    the trie it checks membership against ([frameProverTrie]), the syncing
    target, the filter, the local head [frame], the pub/sub log, the
    subscriptions and the open iterators, and it only ever appends to the
    candidate rows. [syncingStatus] is as before when the message is
    dropped at the gate and is [SyncStatusNotSyncing] on every other way
    out, error and panic included. *)
Theorem X1_response_handler_keeps_the_rest_of_the_engine
    (st : Engine) (peerID address : bytes) (any : Any) :
  let st' := (handleClockFramesResponse peerID address any st).2 in
  frameProverTrie st' = frameProverTrie st
  /\ syncingTarget st' = syncingTarget st
  /\ filter st' = filter st
  /\ frame st' = frame st
  /\ published st' = published st
  /\ subscriptions st' = subscriptions st
  /\ openIterators st' = openIterators st
  /\ (exists rows, candidates st' = candidates st ++ rows)
  /\ syncingStatus st' =
       if bytes_Equal peerID GetPeerID
          || negb (bytes_Equal peerID (syncingTarget st))
       then syncingStatus st
       else SyncStatusNotSyncing.
Proof.
  assert (Hnil : exists rows : list CandidateRow,
                   candidates st = candidates st ++ rows)
    by (exists []; symmetry; apply app_nil_r).
  unfold handleClockFramesResponse, bind, get, modify, defer, try, tryErr,
    ret, throw.
  destruct (bytes_Equal peerID GetPeerID);
    [simpl; repeat (split; [reflexivity |]); split; [exact Hnil | reflexivity] |].
  destruct (bytes_Equal peerID (syncingTarget st));
    [| simpl; repeat (split; [reflexivity |]);
       split; [exact Hnil | reflexivity]].
  cbn beta iota zeta delta [negb orb].
  destruct (UnmarshalTo_ClockFramesResponse any) as [response | e];
    [| simpl; repeat (split; [reflexivity |]);
       split; [exact Hnil | reflexivity]].
  cbn beta iota zeta delta [frameProverTrie set_syncingStatus].
  destruct (Serialize_err (frameProverTrie st));
    [simpl; repeat (split; [reflexivity |]); split; [exact Hnil | reflexivity] |].
  cbn beta iota.
  destruct (Deserialize_err (Trie.Serialize (frameProverTrie st)));
    [simpl; repeat (split; [reflexivity |]); split; [exact Hnil | reflexivity] |].
  cbn beta iota.
  pose proof (processFrames_keeps address (ClockFrames response)
                (Trie.Deserialize (Trie.Serialize (frameProverTrie st)))
                (set_syncingStatus SyncStatusSynchronizing st)) as Hkeeps.
  destruct (processFrames _ _ _ _) as [[tc' | e | msg |] st1];
    destruct Hkeeps as (K1 & K2 & K3 & K4 & K5 & K6 & K7 & K8 & K9);
    simpl in K1, K2, K3, K4, K5, K6, K7, K8, K9 |- *; auto 12.
Qed.

End BatchEffect.

Section Reception.

Context `{FrameOps} `{Crypto} `{Node}.

Lemma received_last (head : Z) (frames : list ClockFrame) :
  forall latest : Z,
    foldl (received head) latest frames =
      from_option FrameNumber latest
        (last (base.filter (fun fr => head < FrameNumber fr) frames)).
Proof.
  induction frames as [| fr rest IH]; intros latest; simpl.
  - reflexivity.
  - rewrite IH. unfold received.
    destruct (decide (head < FrameNumber fr)) as [Habove | Hbelow].
    + rewrite filter_cons_True by exact Habove.
      replace (head <? FrameNumber fr) with true
        by (symmetry; apply Z.ltb_lt; exact Habove).
      destruct (base.filter (fun fr0 => head < FrameNumber fr0) rest)
        as [| x l] eqn:Hrest; [reflexivity |].
      rewrite last_cons_cons.
      destruct (last (x :: l)) eqn:Hlast; [reflexivity |].
      apply last_None in Hlast. discriminate.
    + rewrite filter_cons_False by exact Hbelow.
      replace (head <? FrameNumber fr) with false
        by (symmetry; apply Z.ltb_ge; lia).
      reflexivity.
Qed.

Lemma processFrames_received (address : bytes) (frames : list ClockFrame) :
  forall (tc tc' : Trie.t) (st st' : Engine),
    processFrames address tc frames st = (Ok tc', st') ->
    latestFrameReceived st' =
      foldl (received (frame st)) (latestFrameReceived st) frames.
Proof.
  induction frames as [| fr rest IH]; intros tc tc' st st' Hrun.
  - inversion Hrun. reflexivity.
  - simpl in Hrun. unfold bind in Hrun.
    pose proof (processFrame_effect address tc fr st) as Heff.
    destruct (processFrame address tc fr st) as [[tc1 | e | msg |] st1];
      try discriminate.
    destruct Heff as (prover & ps & sel & dist & _ & _ & Hst1).
    rewrite (IH tc1 tc' st1 st' Hrun). simpl. f_equal.
    + subst st1. cbv zeta. destruct (frame st <? FrameNumber fr); reflexivity.
    + subst st1. cbv zeta. unfold received.
      destruct (frame st <? FrameNumber fr); reflexivity.
Qed.

(** X2. Past the gate, [latestFrameReceived] ends up as the number of the
    last persisted frame of the batch whose number exceeds the local head
    [frame] (the head is what each frame is compared with, and the handler
    never moves it); it is left as it was when no persisted frame exceeds
    the head. It is the last such frame that counts, not the highest. *)
Theorem X2_latest_frame_received_is_last_above_head (st : Engine)
    (peerID address : bytes) (any : Any) (response : ClockFramesResponse) :
  peerID <> GetPeerID ->
  peerID = syncingTarget st ->
  UnmarshalTo_ClockFramesResponse any = Val response ->
  Serialize_err (frameProverTrie st) = None ->
  Deserialize_err (Trie.Serialize (frameProverTrie st)) = None ->
  exists k : nat,
    map row_frame
      (candidates (handleClockFramesResponse peerID address any st).2)
      = map row_frame (candidates st) ++ take k (ClockFrames response)
    /\ latestFrameReceived (handleClockFramesResponse peerID address any st).2
       = from_option FrameNumber (latestFrameReceived st)
           (last (base.filter (fun fr => frame st < FrameNumber fr)
                    (take k (ClockFrames response)))).
Proof.
  intros Hpeer Htarget Hrsp Hser Hde.
  rewrite (handleClockFramesResponse_on_target st peerID address any
             response Hpeer Htarget Hrsp Hser Hde).
  cbv zeta.
  destruct (processFrames_prefix address (ClockFrames response)
              (frameProverTrie st)
              (set_syncingStatus SyncStatusSynchronizing st))
    as (k & tck & _ & Hpre & _).
  destruct (processFrames_ok address (frameProverTrie st)
              (take k (ClockFrames response)) (frameProverTrie st) tck _ _
              (standing_refl (frameProverTrie st)) Hpre)
    as (_ & _ & Hcand & _).
  pose proof (processFrames_received address _ _ _ _ _ Hpre) as Hlatest.
  exists k. split; [exact Hcand |].
  rewrite <- received_last. exact Hlatest.
Qed.

End Reception.

Lemma X2_witness :
  exists k : nat,
    map row_frame (candidates Scenario.unorderedRun.2)
      = take k Scenario.unorderedBatch
    /\ latestFrameReceived Scenario.unorderedRun.2
       = from_option FrameNumber 0
           (last (base.filter (fun fr => 4 < FrameNumber fr)
                    (take k Scenario.unorderedBatch))).
Proof.
  apply (@X2_latest_frame_received_is_last_above_head Fixture.frameOps
           Fixture.crypto Scenario.unorderedNode Fixture.engine0
           Fixture.peer1 [] Fixture.anyMsg
           (Fixture.batch Scenario.unorderedBatch)).
  - vm_compute. discriminate.
  - reflexivity.
  - reflexivity.
  - reflexivity.
  - reflexivity.
Defined.

(** On frames 7, 9, 6 received in that order by an engine whose head is
    4, all three are persisted and [latestFrameReceived] is 6. *)
Example latest_frame_received_unordered :
  Scenario.unorderedRun.1 = Ok tt
  /\ map FrameNumber (map row_frame (candidates Scenario.unorderedRun.2))
     = [7; 9; 6]
  /\ latestFrameReceived Scenario.unorderedRun.2 = 6.
Proof. vm_compute. repeat split. Qed.

(** ** Frame verification: bounds *)

Section VerifierBounds.

Context `{FrameOps} `{Crypto} `{Node}.

(** The loop bound leaves room for every chunk the loop slices. *)
Lemma aggregateCommitmentCount_fits (input : bytes) :
  aggregateCommitmentCount input = 0%nat
  \/ (516 + aggregateCommitmentCount input * 74 <= length input)%nat.
Proof.
  unfold aggregateCommitmentCount.
  destruct (Z_lt_le_dec (Z.of_nat (length input) - 516) 0) as [Hneg | Hpos].
  - left.
    assert (Z.quot (Z.of_nat (length input) - 516) 74 <= Z.quot 0 74)
      by (apply Z.quot_le_mono; lia).
    rewrite Z.quot_0_l in * by lia. lia.
  - right.
    pose proof (Z.mul_quot_le (Z.of_nat (length input) - 516) 74 Hpos
                  ltac:(lia)) as [Hlo Hhi].
    lia.
Qed.

Lemma slice_chunk (input : bytes) (n : nat) (s : Engine) :
  (516 + (n + 1) * 74 <= length input)%nat ->
  slice input (516 + Z.of_nat n * 74) (516 + Z.of_nat n * 74 + 74) s
    = (Ok (commitmentChunk input n), s).
Proof.
  intros Hfit. unfold slice, commitmentChunk.
  replace ((0 <=? 516 + Z.of_nat n * 74)
           && (516 + Z.of_nat n * 74 <=? 516 + Z.of_nat n * 74 + 74)
           && (516 + Z.of_nat n * 74 + 74 <=? Z.of_nat (length input)))
    with true.
  - unfold ret. repeat f_equal; lia.
  - symmetry. rewrite !andb_true_iff, !Z.leb_le. lia.
Qed.

(** The parse loop, entered at chunk [n] with [todo] chunks to go, all of
    them inside the input. *)
Lemma parseAggregateCommitments_run (input : bytes) (todo : nat) :
  forall (n : nat) (acc : list Point) (s : Engine),
    (516 + (n + todo) * 74 <= length input)%nat \/ todo = 0%nat ->
    match (parseAggregateCommitments input todo (Z.of_nat n) acc s).1 with
    | Ok points =>
        exists new,
          points = acc ++ new
          /\ length new = todo
          /\ forall (j : nat) (point : Point),
               new !! j = Some point ->
               FromAffineCompressed (commitmentChunk input (n + j))
                 = Val point
    | Err e =>
        exists (j : nat) (cause : error),
          (j < todo)%nat
          /\ FromAffineCompressed (commitmentChunk input (n + j)) = Fail cause
          /\ e = ErrWrap cause "handle clock frame response"
          /\ forall i : nat,
               (i < j)%nat ->
               exists point : Point,
                 FromAffineCompressed (commitmentChunk input (n + i))
                   = Val point
    | Panic _ => False
    | OutOfFuel => False
    end.
Proof.
  induction todo as [| todo IH]; intros n acc s Hfit.
  - simpl. exists []. split; [symmetry; apply app_nil_r |].
    split; [reflexivity |]. intros j point Hj. discriminate.
  - destruct Hfit as [Hfit | Hzero]; [| discriminate].
    simpl parseAggregateCommitments. unfold bind at 1.
    rewrite slice_chunk by lia. unfold bind at 1.
    destruct (FromAffineCompressed (commitmentChunk input n))
      as [c | cause] eqn:Hchunk; unfold try, ret, throw.
    + replace (Z.of_nat n + 1) with (Z.of_nat (S n)) by lia.
      specialize (IH (S n) (acc ++ [c]) s ltac:(left; lia)).
      destruct (parseAggregateCommitments input todo (Z.of_nat (S n))
                  (acc ++ [c]) s).1 as [points | e | msg |]; try exact IH.
      * destruct IH as (new & -> & Hlen & Hall).
        exists (c :: new). split; [rewrite <- app_assoc; reflexivity |].
        split; [simpl; lia |].
        intros [| j] point Hj; simpl in Hj.
        -- inversion Hj; subst. rewrite Nat.add_0_r. exact Hchunk.
        -- replace (n + S j)%nat with (S n + j)%nat by lia.
           apply Hall. exact Hj.
      * destruct IH as (j & cause & Hj & Hfail & -> & Hbefore).
        exists (S j), cause. split; [lia |].
        replace (n + S j)%nat with (S n + j)%nat by lia.
        split; [exact Hfail |]. split; [reflexivity |].
        intros [| i] Hi.
        -- exists c. rewrite Nat.add_0_r. exact Hchunk.
        -- replace (n + S i)%nat with (S n + i)%nat by lia.
           apply Hbefore. lia.
    + simpl. exists 0%nat, cause. rewrite Nat.add_0_r.
      split; [lia |]. split; [exact Hchunk |]. split; [reflexivity |].
      intros i Hi. lia.
Qed.

(** X3. Parsing the aggregate commitments of a frame input cannot panic:
    every chunk it slices lies inside the input. It yields
    [(len(input) - 516) / 74] points, the [j]-th decoded from the 74
    bytes at offset [516 + 74 j], or the wrapped error of the first chunk
    that fails to decode: every chunk before it decodes. An input shorter
    than 590 bytes yields no point at all, and bytes past the last full
    chunk are not looked at. *)
Theorem X3_commitment_parsing_stays_in_bounds (input : bytes) (s : Engine) :
  match (parseAggregateCommitments input (aggregateCommitmentCount input)
           0 [] s).1 with
  | Ok points =>
      length points = aggregateCommitmentCount input
      /\ (length input < 590 -> points = [])%nat
      /\ forall (j : nat) (point : Point),
           points !! j = Some point ->
           (516 + (j + 1) * 74 <= length input)%nat
           /\ FromAffineCompressed (commitmentChunk input j) = Val point
  | Err e =>
      exists (j : nat) (cause : error),
        (j < aggregateCommitmentCount input)%nat
        /\ FromAffineCompressed (commitmentChunk input j) = Fail cause
        /\ e = ErrWrap cause "handle clock frame response"
        /\ forall i : nat,
             (i < j)%nat ->
             exists point : Point,
               FromAffineCompressed (commitmentChunk input i) = Val point
  | Panic _ => False
  | OutOfFuel => False
  end.
Proof.
  pose proof (aggregateCommitmentCount_fits input) as Hfits.
  pose proof (parseAggregateCommitments_run input
                (aggregateCommitmentCount input) 0 [] s
                ltac:(destruct Hfits; [right | left]; lia)) as Hrun.
  change (Z.of_nat 0) with 0 in Hrun.
  destruct (parseAggregateCommitments input _ 0 [] s).1
    as [points | e | msg |]; try exact Hrun.
  destruct Hrun as (new & -> & Hlen & Hall). simpl.
  split; [exact Hlen |]. split.
  - intros Hshort. destruct new as [| c new]; [reflexivity |].
    simpl in Hlen. destruct Hfits as [Hz | Hfit]; lia.
  - intros j point Hj. split.
    + apply lookup_lt_Some in Hj. destruct Hfits as [Hz | Hfit]; lia.
    + apply (Hall j point Hj).
Qed.

Lemma neverPanics_bind {A B} (m : M A) (k : A -> M B) :
  neverPanics m -> (forall a, neverPanics (k a)) -> neverPanics (bind m k).
Proof.
  intros Hm Hk s msg. unfold bind. specialize (Hm s).
  destruct (m s) as [[a | e | msg' |] s1]; simpl in *;
    try discriminate; [apply Hk | exfalso; exact (Hm msg' eq_refl)].
Qed.

Lemma neverPanics_try {A} (r : result A) (ctx : string) :
  neverPanics (try r ctx).
Proof. intros s msg. destruct r; discriminate. Qed.

Lemma neverPanics_tryErr (r : option error) (ctx : string) :
  neverPanics (tryErr r ctx).
Proof. intros s msg. destruct r; discriminate. Qed.

Lemma neverPanics_ret {A} (a : A) : neverPanics (ret a).
Proof. intros s msg. discriminate. Qed.

Lemma neverPanics_inclusionCommitments (commits : list InclusionCommitment) :
  forall (polys : list (list Scalar)) (cs : list Point),
    neverPanics (inclusionCommitments commits polys cs).
Proof.
  induction commits as [| commit rest IH]; intros polys cs; simpl.
  - apply neverPanics_ret.
  - apply neverPanics_bind.
    + unfold inclusionCommitment. apply neverPanics_bind.
      * unfold inclusionPoly. destruct (String.eqb _ _).
        -- repeat (apply neverPanics_bind;
                   [first [apply neverPanics_tryErr | apply neverPanics_try]
                   | intros ?]).
           apply neverPanics_try.
        -- apply neverPanics_bind; [apply neverPanics_try |]. intros poly.
           apply neverPanics_try.
      * intros p. apply neverPanics_bind; [apply neverPanics_try |].
        intros c. apply neverPanics_ret.
    + intros [evalPoly c]. apply IH.
Qed.

(** The proof loop stays inside [aggregateCommitments] when the proofs
    left do not outnumber the commitments left. *)
Lemma neverPanics_verifyAggregateProofs (acs : list Point)
    (proofs : list InclusionAggregateProof) :
  forall i : nat,
    (i + length proofs <= length acs)%nat ->
    neverPanics (verifyAggregateProofs acs i proofs).
Proof.
  induction proofs as [| proof rest IH]; intros i Hfit; simpl.
  - apply neverPanics_ret.
  - simpl in Hfit.
    apply neverPanics_bind; [apply neverPanics_inclusionCommitments |].
    intros [polys cs].
    apply neverPanics_bind; [apply neverPanics_try |]. intros p.
    destruct (acs !! i) as [ac |] eqn:Hlookup.
    + apply neverPanics_bind; [apply neverPanics_try |]. intros ok.
      destruct (negb ok); [intros s msg; discriminate |].
      apply IH. lia.
    + apply lookup_ge_None in Hlookup. lia.
Qed.

Lemma neverPanics_processFrame (address : bytes) (tc : Trie.t)
    (fr : ClockFrame) :
  (length (AggregateProofs fr) <= aggregateCommitmentCount (Input fr))%nat ->
  neverPanics (processFrame address tc fr).
Proof.
  intros Hfit s msg. unfold processFrame. unfold bind at 1.
  destruct (GetAddress fr) as [prover | e]; [| discriminate].
  unfold try at 1, ret at 1.
  destruct (Trie.Get tc prover) as [[earliest latest] count].
  destruct ((count =? 0) || (earliest >=? FrameNumber fr)); [discriminate |].
  unfold bind at 1.
  destruct (VerifyDataClockFrame fr); [discriminate |].
  unfold tryErr at 1, ret at 1. unfold bind at 1.
  pose proof (parseAggregateCommitments_run (Input fr)
                (aggregateCommitmentCount (Input fr)) 0 [] s
                ltac:(destruct (aggregateCommitmentCount_fits (Input fr));
                      [right | left]; lia)) as Hparse.
  change (Z.of_nat 0) with 0 in Hparse.
  pose proof (parseAggregateCommitments_length (Input fr)
                (aggregateCommitmentCount (Input fr)) 0 [] ) as Hlen.
  destruct (parseAggregateCommitments _ _ _ _ s) as [r1 s1] eqn:Hrun.
  simpl in Hparse.
  destruct r1 as [acs | e | msg' |]; try discriminate; try contradiction.
  specialize (Hlen acs s s1 Hrun). simpl in Hlen.
  unfold bind at 1.
  pose proof (neverPanics_verifyAggregateProofs acs (AggregateProofs fr) 0
                ltac:(lia) s1) as Hverify.
  destruct (verifyAggregateProofs _ _ _ s1) as [r2 s2].
  simpl in Hverify.
  destruct r2 as [[] | e | msg' |]; try discriminate;
    [| exfalso; exact (Hverify msg' eq_refl)].
  unfold bind at 1.
  destruct (GetParentSelectorAndDistance fr) as [[[ps sel] dist] | e];
    [| discriminate].
  unfold try at 1, ret at 1.
  unfold bind at 1, wrap at 1, NewTransaction.
  destruct (NewTransaction_err (candidates s2)); [discriminate |].
  unfold bind at 1, wrap at 1, PutCandidateDataClockFrame.
  destruct (PutCandidateDataClockFrame_err _ _); [discriminate |].
  unfold bind at 1, wrap at 1, Commit.
  destruct (Commit_err _ _); [discriminate |].
  unfold bind, get, modify, ret. simpl.
  destruct (frame s2 <? FrameNumber fr); discriminate.
Qed.

End VerifierBounds.

Section NoPanic.

Context `{FrameOps} `{Crypto} `{Node}.

Lemma neverPanics_processFrames (address : bytes)
    (frames : list ClockFrame) :
  Forall (fun fr =>
            (length (AggregateProofs fr)
               <= aggregateCommitmentCount (Input fr))%nat) frames ->
  forall tc : Trie.t, neverPanics (processFrames address tc frames).
Proof.
  induction 1 as [| fr rest Hfr Hrest IH]; intros tc; simpl.
  - apply neverPanics_ret.
  - apply neverPanics_bind; [apply neverPanics_processFrame; exact Hfr |].
    intros tc'. apply IH.
Qed.

(** X4. A response in which no frame carries more aggregate proofs than
    its input holds aggregate commitments cannot make the handler panic:
    every index [aggregateCommitments[i]] and every slice of the input is
    in range. (More proofs than commitments is the one way to a panic.) *)
Theorem X4_no_panic_when_proofs_do_not_outnumber_commitments
    (st : Engine) (peerID address : bytes) (any : Any)
    (response : ClockFramesResponse) :
  UnmarshalTo_ClockFramesResponse any = Val response ->
  Forall (fun fr =>
            (length (AggregateProofs fr)
               <= aggregateCommitmentCount (Input fr))%nat)
    (ClockFrames response) ->
  forall msg : string,
    (handleClockFramesResponse peerID address any st).1 <> Panic msg.
Proof.
  intros Hrsp Hfit msg.
  unfold handleClockFramesResponse, bind, get, modify, defer, try, tryErr,
    ret, throw.
  destruct (bytes_Equal peerID GetPeerID); [discriminate |].
  destruct (bytes_Equal peerID (syncingTarget st)); [| discriminate].
  cbn beta iota zeta delta [negb]. rewrite Hrsp.
  cbn beta iota zeta delta [frameProverTrie set_syncingStatus].
  destruct (Serialize_err (frameProverTrie st)); [discriminate |].
  cbn beta iota.
  destruct (Deserialize_err (Trie.Serialize (frameProverTrie st)));
    [discriminate |].
  cbn beta iota.
  pose proof (neverPanics_processFrames address (ClockFrames response) Hfit
                (Trie.Deserialize (Trie.Serialize (frameProverTrie st)))
                (set_syncingStatus SyncStatusSynchronizing st)) as Hsafe.
  destruct (processFrames _ _ _ _) as [[tc' | e | msg' |] st1];
    simpl in Hsafe |- *; try discriminate.
  intros Heq. apply (Hsafe msg'). reflexivity.
Qed.

End NoPanic.

Lemma X4_witness :
  aggregateCommitmentCount (Input Scenario.provedFrame) = 2%nat
  /\ length (AggregateProofs Scenario.provedFrame) = 2%nat
  /\ Scenario.provedRun.1 <> Panic "index out of range".
Proof.
  split; [vm_compute; reflexivity |]. split; [reflexivity |].
  apply (@X4_no_panic_when_proofs_do_not_outnumber_commitments
           Fixture.frameOps Fixture.crypto Scenario.provedNode
           Fixture.engine0 Fixture.peer1 [] Fixture.anyMsg
           (Fixture.batch [Scenario.provedFrame])).
  - reflexivity.
  - constructor; [vm_compute; lia | constructor].
Defined.

(** On that frame both proofs are checked, each against the commitment at
    its own index, and the frame is persisted. *)
Example proved_frame_is_verified_and_persisted :
  @verifyAggregateProofs Fixture.crypto
    [commitmentChunk (Input Scenario.provedFrame) 0;
     commitmentChunk (Input Scenario.provedFrame) 1]
    0 (AggregateProofs Scenario.provedFrame) Fixture.engine0
  = (Ok tt, Fixture.engine0)
  /\ Scenario.provedRun.1 = Ok tt
  /\ map row_frame (candidates Scenario.provedRun.2)
     = [Scenario.provedFrame].
Proof. repeat split; vm_compute; reflexivity. Qed.

(** ** Inclusion commitments: what the padding loop yields *)

Section PaddingShape.

Context `{Crypto}.

(** X5. The padding loop keeps the polynomial as a prefix and appends
    only zero scalars, never taking the length past 128 when it started at
    or below; it leaves a polynomial of 128 or more scalars as it is, of
    whatever length; and the result has exactly 128 scalars only for an
    input of 127 or 128 scalars. *)
Theorem X5_padding_loop_shape (poly : list Scalar) :
  (exists k : nat, padLoop 0 poly = poly ++ replicate k Scalar_Zero)
  /\ (length poly <= 128 -> length (padLoop 0 poly) <= 128)%nat
  /\ (128 <= length poly -> padLoop 0 poly = poly)%nat
  /\ (length (padLoop 0 poly) = 128%nat
      <-> length poly = 127%nat \/ length poly = 128%nat).
Proof.
  rewrite padLoop_appends, length_app, length_replicate.
  unfold padCount.
  assert (Hk : 128 < Z.of_nat (length poly)
               /\ Z.to_nat ((128 - Z.of_nat (length poly) - 0 + 1) / 2) = 0%nat
               \/ Z.of_nat (length poly) <= 128
                  /\ 2 * Z.of_nat
                         (Z.to_nat
                            ((128 - Z.of_nat (length poly) - 0 + 1) / 2))
                     <= 128 - Z.of_nat (length poly) + 1
                  /\ 128 - Z.of_nat (length poly)
                     <= 2 * Z.of_nat
                              (Z.to_nat
                                 ((128 - Z.of_nat (length poly) - 0 + 1) / 2))).
  { Z.div_mod_to_equations. lia. }
  split; [eexists; reflexivity |].
  split; [lia |]. split; [| lia].
  intros Hlong.
  replace (Z.to_nat ((128 - Z.of_nat (length poly) - 0 + 1) / 2)) with 0%nat
    by lia.
  simpl. apply app_nil_r.
Qed.

End PaddingShape.

(** ** The proving-key request handler: what it publishes *)

Section ProvingKeyEffects.

Context `{Node}.

(** X6. [handleProvingKeyRequest] never publishes a proving key it has
    resolved: whatever the message and the key store, it publishes at
    most one message, on [filter || peer_id], and that message is a
    [ProvingKeyAnnouncement] whose payload is the nil pointer
    [provingKey] was declared as. It subscribes to that topic at most
    once and touches no other field of the engine: all twelve fields are
    accounted for. *)
Theorem X6_proving_key_request_publishes_nil_at_most
    (st : Engine) (peerID address : bytes) (any : Any) :
  let st' := (handleProvingKeyRequest peerID address any st).2 in
  (published st' = published st
   \/ published st' =
        published st
          ++ [(filter st ++ peerID, MsgProvingKeyAnnouncement None)])
  /\ (subscriptions st' = subscriptions st
      \/ subscriptions st' = subscriptions st ++ [filter st ++ peerID])
  /\ candidates st' = candidates st
  /\ frameProverTrie st' = frameProverTrie st
  /\ frameSeenProverTrie st' = frameSeenProverTrie st
  /\ syncingStatus st' = syncingStatus st
  /\ latestFrameReceived st' = latestFrameReceived st
  /\ openIterators st' = openIterators st
  /\ filter st' = filter st
  /\ syncingTarget st' = syncingTarget st
  /\ frame st' = frame st
  /\ lastFrameReceivedAt st' = lastFrameReceivedAt st.
Proof.
  unfold handleProvingKeyRequest.
  destruct (bytes_Equal peerID GetPeerID); [simpl; auto 14 |].
  destruct (UnmarshalTo_ProvingKeyRequest any) as [request | e];
    [| simpl; auto 14].
  destruct (length (ProvingKeyBytes request) =? 0)%nat; [simpl; auto 14 |].
  unfold bind, get, Subscribe, modify, publishMessage, ret, panic. simpl.
  destruct (GetProvingKey (ProvingKeyBytes request)) as [inclusion | err].
  - destruct (proto_Unmarshal_nil (Data inclusion)) as [[e |] | msg];
      simpl; auto 14.
    destruct (publish_err _ _ _); simpl; auto 14.
  - destruct (errors_Is_NotFound err); simpl; auto 14.
    destruct (GetStagedProvingKey (ProvingKeyBytes request))
      as [provingKey [e |]]; simpl; auto 14.
    destruct (errors_Is_NotFound e); simpl; auto 14.
Qed.

(** X7. When [GetProvingKey] fails, for whatever reason, the handler
    returns [nil] and publishes nothing: also when the error is
    [ErrNotFound] and [GetStagedProvingKey] then finds the key, because
    the test that follows, [!errors.Is(err, store.ErrNotFound)], holds for
    the nil error of a successful lookup. A key that is only staged is
    never served. *)
Theorem X7_staged_proving_key_is_never_served
    (st : Engine) (peerID address : bytes) (any : Any)
    (request : ProvingKeyRequest) (err : error) :
  UnmarshalTo_ProvingKeyRequest any = Val request ->
  GetProvingKey (ProvingKeyBytes request) = Fail err ->
  (handleProvingKeyRequest peerID address any st).1 = Ok tt
  /\ published (handleProvingKeyRequest peerID address any st).2
     = published st.
Proof.
  intros Hreq Hkey. unfold handleProvingKeyRequest.
  destruct (bytes_Equal peerID GetPeerID); [split; reflexivity |].
  rewrite Hreq.
  destruct (length (ProvingKeyBytes request) =? 0)%nat;
    [split; reflexivity |].
  unfold bind, get, Subscribe, modify, publishMessage, ret. simpl.
  rewrite Hkey.
  destruct (errors_Is_NotFound err); simpl; [| split; reflexivity].
  destruct (GetStagedProvingKey (ProvingKeyBytes request))
    as [provingKey [e |]]; simpl; [| split; reflexivity].
  destruct (errors_Is_NotFound e); split; reflexivity.
Qed.

End ProvingKeyEffects.

Lemma X7_witness :
  @GetStagedProvingKey Scenario.stagedKeyNode [Byte.x07]
    = (Some {| pka_bytes := [Byte.x07] |}, None)
  /\ Scenario.stagedKeyRun.1 = Ok tt
  /\ published Scenario.stagedKeyRun.2 = [].
Proof.
  split; [reflexivity |].
  apply (@X7_staged_proving_key_is_never_served Scenario.stagedKeyNode
           Fixture.engine0 Fixture.peer2 [] Fixture.anyMsg
           {| ProvingKeyBytes := [Byte.x07] |} ErrNotFound);
    reflexivity.
Defined.

(** ** The range server: what is published, and from where *)

Lemma onlyLogAndIterators_refl (st : Engine) : onlyLogAndIterators st st.
Proof.
  exists (published st), (openIterators st). destruct st. reflexivity.
Qed.

Lemma onlyLogAndIterators_trans (st1 st2 st3 : Engine) :
  onlyLogAndIterators st1 st2 -> onlyLogAndIterators st2 st3 ->
  onlyLogAndIterators st1 st3.
Proof.
  intros (log1 & n1 & ->) (log2 & n2 & ->). exists log2, n2. reflexivity.
Qed.

Lemma onlyLogAndIterators_published (st : Engine)
    (log : list (bytes * Message)) :
  onlyLogAndIterators st (set_published log st).
Proof. exists log, (openIterators st). destruct st. reflexivity. Qed.

Lemma onlyLogAndIterators_open (st : Engine) (n : nat) :
  onlyLogAndIterators st (set_openIterators n st).
Proof. exists (published st), n. destruct st. reflexivity. Qed.

Section RangeTrace.

Context `{FrameOps} `{Node}.

Lemma iterLoop_trace (topic : bytes) (it : Iterator) :
  forall (nextSpan set : list ClockFrame) (s : Engine),
    exists frs : list ClockFrame,
      published (iterLoop topic it nextSpan set s).2
        = published s ++ map (framePost topic) frs
      /\ Forall (fun fr => Val fr ∈ it) frs
      /\ onlyLogAndIterators s (iterLoop topic it nextSpan set s).2
      /\ openIterators (iterLoop topic it nextSpan set s).2 = openIterators s
      /\ match (iterLoop topic it nextSpan set s).1 with
         | Ok (nextSpan', _) => nextSpan' = nextSpan ++ frs
         | _ => True
         end.
Proof.
  induction it as [| value rest IH]; intros nextSpan set s.
  - exists []. simpl. rewrite !app_nil_r.
    split; [reflexivity |]. split; [constructor |].
    split; [apply onlyLogAndIterators_refl |]. split; reflexivity.
  - simpl iterLoop. unfold bind, try, wrap, publishMessage, ret, throw.
    destruct value as [fr | e].
    2: { exists []. simpl. rewrite app_nil_r. split; [reflexivity |].
         split; [constructor |].
         split; [apply onlyLogAndIterators_refl |]. split; [reflexivity |].
         exact I. }
    destruct (publish_err (published s) topic (MsgClockFrame fr)).
    { exists []. simpl. rewrite app_nil_r. split; [reflexivity |].
      split; [constructor |].
      split; [apply onlyLogAndIterators_refl |]. split; [reflexivity |].
      exact I. }
    destruct (IH (nextSpan ++ [fr]) (set ++ [fr])
                (set_published
                   (published s ++ [(topic, MsgClockFrame fr)]) s))
      as (frs & Hpub & Hfrom & Honly & Hopen & Hspan).
    exists (fr :: frs). split.
    { rewrite Hpub. simpl. rewrite <- app_assoc. reflexivity. }
    split.
    { constructor; [apply list_elem_of_here |].
      eapply Forall_impl; [exact Hfrom |].
      intros x Hx. apply list_elem_of_further. exact Hx. }
    split.
    { eapply onlyLogAndIterators_trans;
        [apply onlyLogAndIterators_published | exact Honly]. }
    split; [exact Hopen |].
    destruct (iterLoop _ _ _ _ _).1 as [[nextSpan' set'] | | |];
      try exact I.
    rewrite Hspan, <- app_assoc. reflexivity.
Qed.

Lemma scanFrame_trace (topic : bytes) (s : ClockFrame)
    (noMoreFinalized : bool) (nextSpan set : list ClockFrame)
    (st : Engine) :
  exists frs : list ClockFrame,
    published (scanFrame topic s noMoreFinalized nextSpan set st).2
      = published st ++ map (framePost topic) frs
    /\ Forall (successorOf s) frs
    /\ onlyLogAndIterators st
         (scanFrame topic s noMoreFinalized nextSpan set st).2
    /\ match (scanFrame topic s noMoreFinalized nextSpan set st).1 with
       | Ok (_, nextSpan', _) => nextSpan' = nextSpan ++ frs
       | _ => True
       end.
Proof.
  assert (Hnothing :
    forall r : outcome (bool * list ClockFrame * list ClockFrame),
      match r with Ok _ => False | _ => True end ->
      exists frs : list ClockFrame,
        published st = published st ++ map (framePost topic) frs
        /\ Forall (successorOf s) frs
        /\ onlyLogAndIterators st st
        /\ match r with
           | Ok (_, nextSpan', _) => nextSpan' = nextSpan ++ frs
           | _ => True
           end).
  { intros r Hr. exists []. simpl. rewrite app_nil_r.
    split; [reflexivity |]. split; [constructor |].
    split; [apply onlyLogAndIterators_refl |].
    destruct r; [contradiction | exact I ..]. }
  assert (Hcandidates :
    forall (selector : Z) (it : Iterator) (pre : list ClockFrame)
           (st0 : Engine) (nextSpan0 set0 : list ClockFrame),
      GetSelector s = Val selector ->
      RangeCandidateDataClockFrames (Filter s) (big_Bytes selector)
        (u64 (FrameNumber s + 1)) = Val it ->
      published st0 = published st ++ map (framePost topic) pre ->
      Forall (successorOf s) pre ->
      onlyLogAndIterators st st0 ->
      nextSpan0 = nextSpan ++ pre ->
      let r :=
        (let (o, s') :=
           iterLoop topic it nextSpan0 set0
             (set_openIterators (S (openIterators st0)) st0) in
         match o with
         | Ok a =>
             (let (nextSpan1, set1) := a in
              fun s0 : Engine =>
                (Ok (true, nextSpan1, set1),
                 set_openIterators (Nat.pred (openIterators s0)) s0)) s'
         | Err e => (Err e, s')
         | Panic msg => (Panic msg, s')
         | OutOfFuel => (OutOfFuel, s')
         end) in
      exists frs : list ClockFrame,
        published r.2 = published st ++ map (framePost topic) frs
        /\ Forall (successorOf s) frs
        /\ onlyLogAndIterators st r.2
        /\ match r.1 with
           | Ok (_, nextSpan', _) => nextSpan' = nextSpan ++ frs
           | _ => True
           end).
  { intros selector it pre st0 nextSpan0 set0 Hsel Hit Hpre Hsucc Honly0
           Hspan0 r. subst r.
    destruct (iterLoop_trace topic it nextSpan0 set0
                (set_openIterators (S (openIterators st0)) st0))
      as (frs & Hpub & Hfrom & Honly & _ & Hspan).
    exists (pre ++ frs).
    assert (Hall : Forall (successorOf s) (pre ++ frs)).
    { apply Forall_app. split; [exact Hsucc |].
      eapply Forall_impl; [exact Hfrom |].
      intros fr Hfr. right. exists selector, it. auto. }
    assert (Honly1 :
      onlyLogAndIterators st
        (iterLoop topic it nextSpan0 set0
           (set_openIterators (S (openIterators st0)) st0)).2).
    { eapply onlyLogAndIterators_trans; [exact Honly0 |].
      eapply onlyLogAndIterators_trans;
        [apply onlyLogAndIterators_open | exact Honly]. }
    destruct (iterLoop topic it nextSpan0 set0 _)
      as [[[nextSpan1 set1] | e | msg |] s1];
      simpl in Hpub, Hspan, Honly1 |- *;
      rewrite map_app, app_assoc, <- Hpre;
      (split; [exact Hpub |]); (split; [exact Hall |]);
      try (split; [exact Honly1 | exact I]).
    split.
    - eapply onlyLogAndIterators_trans;
        [exact Honly1 | apply onlyLogAndIterators_open].
    - rewrite Hspan, Hspan0, <- app_assoc. reflexivity. }
  unfold scanFrame, bind, try, wrap, publishMessage, openIterator,
    iter_Close, modify, ret, throw.
  destruct (GetSelector s) as [selector | e] eqn:Hsel;
    [| apply (Hnothing (Err (ErrWrap e "handle clock frame request")) I)].
  destruct noMoreFinalized; cbn beta iota zeta delta [negb].
  - destruct (RangeCandidateDataClockFrames _ _ _) as [it | e] eqn:Hit;
      [| apply (Hnothing (Err (ErrWrap e "handle clock frame request")) I)].
    apply (Hcandidates selector it [] st nextSpan set eq_refl Hit).
    + simpl. symmetry. apply app_nil_r.
    + constructor.
    + apply onlyLogAndIterators_refl.
    + symmetry. apply app_nil_r.
  - destruct (GetDataClockFrame (Filter s) (u64 (FrameNumber s + 1)))
      as [fr | err] eqn:Hnext.
    + destruct (publish_err (published st) topic (MsgClockFrame fr));
        [apply (Hnothing (Err (ErrWrap e "handle clock frame request")) I) |].
      cbn beta iota zeta. exists [fr]. simpl.
      split; [reflexivity |].
      split; [constructor; [left; exact Hnext | constructor] |].
      split; [apply onlyLogAndIterators_published | reflexivity].
    + destruct (errors_Is_NotFound err);
        [| apply (Hnothing
                    (Err (ErrWrap err "handle clock frame request")) I)].
      cbn beta iota zeta.
      destruct (RangeCandidateDataClockFrames _ _ _) as [it | e] eqn:Hit;
        [| apply (Hnothing
                    (Err (ErrWrap e "handle clock frame request")) I)].
      apply (Hcandidates selector it [] st nextSpan set eq_refl Hit).
      * simpl. symmetry. apply app_nil_r.
      * constructor.
      * apply onlyLogAndIterators_refl.
      * symmetry. apply app_nil_r.
Qed.

End RangeTrace.

Section RangeProvenance.

Context `{FrameOps} `{Node}.

Lemma scanSpan_trace (topic : bytes) (searchSpan : list ClockFrame) :
  forall (noMoreFinalized : bool) (nextSpan set : list ClockFrame)
         (st : Engine),
    exists frs : list ClockFrame,
      published (scanSpan topic searchSpan noMoreFinalized nextSpan set st).2
        = published st ++ map (framePost topic) frs
      /\ Forall (fun fr => exists s, s ∈ searchSpan /\ successorOf s fr) frs
      /\ onlyLogAndIterators st
           (scanSpan topic searchSpan noMoreFinalized nextSpan set st).2
      /\ match (scanSpan topic searchSpan noMoreFinalized nextSpan set st).1
         with
         | Ok (_, nextSpan', _) => nextSpan' = nextSpan ++ frs
         | _ => True
         end.
Proof.
  induction searchSpan as [| s rest IH];
    intros noMoreFinalized nextSpan set st.
  - exists []. simpl. rewrite !app_nil_r.
    split; [reflexivity |]. split; [constructor |].
    split; [apply onlyLogAndIterators_refl | reflexivity].
  - simpl scanSpan. unfold bind.
    destruct (scanFrame_trace topic s noMoreFinalized nextSpan set st)
      as (frs1 & Hpub1 & Hsucc1 & Honly1 & Hspan1).
    assert (Hsucc1' :
      Forall (fun fr => exists s0, s0 ∈ s :: rest /\ successorOf s0 fr) frs1).
    { eapply Forall_impl; [exact Hsucc1 |].
      intros fr Hfr. exists s. split; [apply list_elem_of_here | exact Hfr]. }
    destruct (scanFrame topic s noMoreFinalized nextSpan set st)
      as [[[[nmf nextSpan1] set1] | e | msg |] st1];
      simpl in Hpub1, Hspan1, Honly1 |- *;
      try solve [exists frs1; auto].
    destruct (IH nmf nextSpan1 set1 st1)
      as (frs2 & Hpub2 & Hsucc2 & Honly2 & Hspan2).
    exists (frs1 ++ frs2). split.
    { rewrite Hpub2, Hpub1, map_app, app_assoc. reflexivity. }
    split.
    { apply Forall_app. split; [exact Hsucc1' |].
      eapply Forall_impl; [exact Hsucc2 |].
      intros fr (s0 & Hin & Hfr). exists s0.
      split; [apply list_elem_of_further; exact Hin | exact Hfr]. }
    split; [eapply onlyLogAndIterators_trans; eassumption |].
    destruct (scanSpan topic rest nmf nextSpan1 set1 st1).1
      as [[[nmf' nextSpan'] set'] | | |]; try exact I.
    rewrite Hspan2, Hspan1, app_assoc. reflexivity.
Qed.

Lemma descendsFrom_lift (span children : list ClockFrame) (fr : ClockFrame) :
  Forall (fun c => exists s, s ∈ span /\ successorOf s c) children ->
  descendsFrom children fr -> descendsFrom span fr.
Proof.
  intros Hchildren Hfr.
  induction Hfr as [c fr Hc Hsucc | c fr Hc IH Hsucc].
  - rewrite Forall_forall in Hchildren.
    destruct (Hchildren c Hc) as (s & Hs & Hsc).
    apply (descends_step span c fr); [| exact Hsucc].
    apply (descends_child span s c Hs Hsc).
  - apply (descends_step span c fr IH Hsucc).
Qed.

Lemma scanLoop_trace (topic : bytes) (from to : Z) (fuel : nat) :
  forall (searchSpan : list ClockFrame) (noMoreFinalized : bool) (c : Z)
         (set : list ClockFrame) (st : Engine),
    exists frs : list ClockFrame,
      published
        (scanLoop fuel topic from to searchSpan noMoreFinalized c set st).2
        = published st ++ map (framePost topic) frs
      /\ Forall (descendsFrom searchSpan) frs
      /\ onlyLogAndIterators st
           (scanLoop fuel topic from to searchSpan noMoreFinalized c set
              st).2.
Proof.
  assert (Hnone :
    forall (searchSpan : list ClockFrame) (st : Engine),
      exists frs : list ClockFrame,
        published st = published st ++ map (framePost topic) frs
        /\ Forall (descendsFrom searchSpan) frs
        /\ onlyLogAndIterators st st).
  { intros searchSpan st. exists []. simpl. rewrite app_nil_r.
    split; [reflexivity |]. split; [constructor |].
    apply onlyLogAndIterators_refl. }
  induction fuel as [| fuel IH];
    intros searchSpan noMoreFinalized c set st; simpl;
    destruct (_ && _); try apply Hnone.
  unfold bind.
  destruct (scanSpan_trace topic searchSpan noMoreFinalized [] set st)
    as (frs1 & Hpub1 & Hsucc1 & Honly1 & Hspan1).
  assert (Hdesc1 : Forall (descendsFrom searchSpan) frs1).
  { eapply Forall_impl; [exact Hsucc1 |].
    intros fr (s & Hs & Hfr). apply (descends_child searchSpan s fr Hs Hfr). }
  destruct (scanSpan topic searchSpan noMoreFinalized [] set st)
    as [[[[nmf nextSpan] set'] | e | msg |] st1];
    simpl in Hpub1, Hspan1, Honly1 |- *;
    try solve [exists frs1; auto].
  simpl in Hspan1. subst nextSpan.
  destruct (IH frs1 nmf (int64 (c + 1)) set' st1)
    as (frs2 & Hpub2 & Hdesc2 & Honly2).
  exists (frs1 ++ frs2). split.
  { rewrite Hpub2, Hpub1, map_app, app_assoc. reflexivity. }
  split.
  { apply Forall_app. split; [exact Hdesc1 |].
    eapply Forall_impl; [exact Hdesc2 |].
    intros fr Hfr. eapply descendsFrom_lift; eassumption. }
  eapply onlyLogAndIterators_trans; eassumption.
Qed.

(** X8. [handleClockFramesRequest] closes every candidate iterator it
    opened whenever it returns [nil]. On any other way out at most one
    iterator is left open, and none that was open before is closed. *)
Theorem X8_request_iterators_balanced_on_nil (fuel : nat) (st : Engine)
    (peerID address : bytes) (any : Any) :
  match (handleClockFramesRequest fuel peerID address any st).1 with
  | Ok _ =>
      openIterators (handleClockFramesRequest fuel peerID address any st).2
        = openIterators st
  | _ =>
      (openIterators st
         <= openIterators
              (handleClockFramesRequest fuel peerID address any st).2
         <= S (openIterators st))%nat
  end.
Proof. exact (handleClockFramesRequest_open fuel peerID address any st). Qed.

(** X9. Whatever the request and the store, [handleClockFramesRequest]
    only appends to the pub/sub log, and everything it appends is
    addressed to [filter || peer_id]. It adds at most that one topic to
    the subscriptions (it does so before looking anything up, so also
    when it then fails) and it never touches the candidate rows, the
    prover tries, the sync status or the reception fields. *)
Theorem X9_request_handler_publishes_on_the_peer_topic_only (fuel : nat)
    (st : Engine) (peerID address : bytes) (any : Any) :
  let st' := (handleClockFramesRequest fuel peerID address any st).2 in
  (exists posts,
      published st' = published st ++ posts
      /\ Forall (fun post => post.1 = filter st ++ peerID) posts)
  /\ (subscriptions st' = subscriptions st
      \/ subscriptions st' = subscriptions st ++ [filter st ++ peerID])
  /\ candidates st' = candidates st
  /\ frameProverTrie st' = frameProverTrie st
  /\ frameSeenProverTrie st' = frameSeenProverTrie st
  /\ syncingStatus st' = syncingStatus st
  /\ latestFrameReceived st' = latestFrameReceived st
  /\ lastFrameReceivedAt st' = lastFrameReceivedAt st.
Proof.
  assert (Hnone : exists posts : list (bytes * Message),
             published st = published st ++ posts
             /\ Forall (fun post => post.1 = filter st ++ peerID) posts).
  { exists []. rewrite app_nil_r. split; [reflexivity | constructor]. }
  unfold handleClockFramesRequest, bind, get, Subscribe, modify, try, wrap,
    publishMessage, ret, throw.
  destruct (bytes_Equal peerID GetPeerID); [simpl; auto 10 |].
  destruct (UnmarshalTo_ClockFramesRequest any) as [request | e];
    [| simpl; auto 10].
  cbn beta iota zeta.
  destruct (GetDataClockFrame (req_Filter request) (FromFrameNumber request))
    as [base | err].
  - pose (keeps := fun st' : Engine =>
      (exists posts,
          published st' = published st ++ posts
          /\ Forall (fun post => post.1 = filter st ++ peerID) posts)
      /\ (subscriptions st' = subscriptions st
          \/ subscriptions st' = subscriptions st ++ [filter st ++ peerID])
      /\ candidates st' = candidates st
      /\ frameProverTrie st' = frameProverTrie st
      /\ frameSeenProverTrie st' = frameSeenProverTrie st
      /\ syncingStatus st' = syncingStatus st
      /\ latestFrameReceived st' = latestFrameReceived st
      /\ lastFrameReceivedAt st' = lastFrameReceivedAt st).
    assert (Hkeeps :
      keeps (scanLoop fuel (filter st ++ peerID) (FromFrameNumber request)
               (clampTo (FromFrameNumber request) (ToFrameNumber request))
               [base] false 1 [base]
               (set_subscriptions
                  (subscriptions st ++ [filter st ++ peerID]) st)).2).
    { destruct (scanLoop_trace (filter st ++ peerID)
                  (FromFrameNumber request)
                  (clampTo (FromFrameNumber request) (ToFrameNumber request))
                  fuel [base] false 1 [base]
                  (set_subscriptions
                     (subscriptions st ++ [filter st ++ peerID]) st))
        as (frs & Hpub & _ & (log & n & Honly)).
      unfold keeps. rewrite Honly in Hpub |- *. simpl in Hpub |- *.
      split; [| auto 10].
      exists (map (framePost (filter st ++ peerID)) frs).
      split; [exact Hpub |].
      apply Forall_forall. intros post Hpost.
      apply list_elem_of_fmap in Hpost as (fr & -> & _). reflexivity. }
    exact Hkeeps.
  - destruct (errors_Is_NotFound err); simpl; [| auto 10].
    destruct (publish_err _ _ _); simpl; [auto 10 |].
    split; [| auto 10]. eexists. split; [reflexivity |].
    constructor; [reflexivity | constructor].
Qed.


End RangeProvenance.


(** The branching store is served level by level: the finalized frame at
    11, then both candidates at 12, then the candidates at 13 under each
    of them. *)
Example branching_run_is_breadth_first :
  Scenario.branchingRun.1 = Ok tt
  /\ publishedHeights (published Scenario.branchingRun.2)
     = [11; 12; 12; 13; 13].
Proof. vm_compute. repeat split. Qed.

(** ** The range server: order of publication *)

Lemma clampTo_forward (from to : Z) :
  0 <= from -> from + 33 < two64 -> 0 <= to < two64 ->
  from <= clampTo from to <= from + 32.
Proof.
  intros Hfrom Hroom Hto. unfold clampTo.
  destruct (to =? 0) eqn:Hzero; simpl.
  - rewrite u64_small by (unfold two64 in *; lia). lia.
  - destruct (u64 (to - from) >? 32) eqn:Hwide.
    + rewrite u64_small by (unfold two64 in *; lia). lia.
    + rewrite Z.gtb_ltb in Hwide. apply Z.ltb_ge in Hwide.
      unfold u64, two64 in *. Z.div_mod_to_equations. lia.
Qed.

Lemma StronglySorted_level (h : Z) (frs : list ClockFrame) :
  Forall (fun fr => FrameNumber fr = h) frs ->
  StronglySorted Z.le (map FrameNumber frs).
Proof.
  induction 1 as [| fr rest Hfr Hrest IH]; simpl; constructor.
  - exact IH.
  - apply Forall_forall. intros x Hx.
    apply list_elem_of_fmap in Hx as (y & -> & Hy).
    rewrite Forall_forall in Hrest. rewrite Hfr, (Hrest y Hy). lia.
Qed.

Section RangeLevels.

Context `{FrameOps} `{Node}.

Hypothesis store_keeps_heights : storeKeepsHeights.

Lemma successorOf_height (s fr : ClockFrame) :
  successorOf s fr -> FrameNumber fr = u64 (FrameNumber s + 1).
Proof.
  destruct store_keeps_heights as [Hfinal Hcandidate].
  intros [Hnext | (selector & it & _ & Hit & Hin)].
  - exact (Hfinal _ _ _ Hnext).
  - exact (Hcandidate _ _ _ _ _ Hit Hin).
Qed.

(** From round [c] on, with a span standing at height [from + c - 1], the
    loop publishes level after level: heights never decrease and stay
    within [from + c .. to]. *)
Lemma scanLoop_levels (topic : bytes) (from to : Z) :
  0 <= from -> from <= to -> to < two64 - 1 -> to - from <= 32 ->
  forall (fuel : nat) (c : Z) (searchSpan : list ClockFrame)
         (noMoreFinalized : bool) (set : list ClockFrame) (st : Engine),
    1 <= c <= to - from + 1 ->
    Forall (fun s => FrameNumber s = from + c - 1) searchSpan ->
    exists frs : list ClockFrame,
      published
        (scanLoop fuel topic from to searchSpan noMoreFinalized c set st).2
        = published st ++ map (framePost topic) frs
      /\ StronglySorted Z.le (map FrameNumber frs)
      /\ Forall (fun fr => from + c <= FrameNumber fr <= to) frs.
Proof.
  intros Hfrom Hle Hto Hwidth.
  assert (Hnone :
    forall (c : Z) (st : Engine),
      exists frs : list ClockFrame,
        published st = published st ++ map (framePost topic) frs
        /\ StronglySorted Z.le (map FrameNumber frs)
        /\ Forall (fun fr => from + c <= FrameNumber fr <= to) frs).
  { intros c st. exists []. simpl. rewrite app_nil_r.
    split; [reflexivity |]. split; constructor. }
  induction fuel as [| fuel IH];
    intros c searchSpan noMoreFinalized set st Hc Hspan; simpl;
    destruct (_ && _) eqn:Hcond; try apply Hnone.
  apply andb_true_iff in Hcond as [_ Hround].
  rewrite (u64_small c) in Hround by (unfold two64 in *; lia).
  rewrite u64_small in Hround by (unfold two64 in *; lia).
  apply Z.leb_le in Hround.
  unfold bind.
  destruct (scanSpan_trace topic searchSpan noMoreFinalized [] set st)
    as (frs1 & Hpub1 & Hsucc1 & _ & Hspan1).
  assert (Hlevel : Forall (fun fr => FrameNumber fr = from + c) frs1).
  { eapply Forall_impl; [exact Hsucc1 |].
    intros fr (s & Hs & Hfr).
    rewrite (successorOf_height s fr Hfr).
    rewrite Forall_forall in Hspan. rewrite (Hspan s Hs).
    rewrite u64_small by (unfold two64 in *; lia). lia. }
  assert (Hbounds1 : Forall (fun fr => from + c <= FrameNumber fr <= to) frs1).
  { eapply Forall_impl; [exact Hlevel |]. intros fr Hfr. simpl in Hfr. lia. }
  pose proof (StronglySorted_level (from + c) frs1 Hlevel) as Hsorted1.
  destruct (scanSpan topic searchSpan noMoreFinalized [] set st)
    as [[[[nmf nextSpan] set'] | e | msg |] st1];
    simpl in Hpub1, Hspan1 |- *;
    try solve [exists frs1; auto].
  simpl in Hspan1. subst nextSpan.
  rewrite int64_small by (unfold two63 in *; lia).
  destruct (IH (c + 1) frs1 nmf set' st1 ltac:(lia))
    as (frs2 & Hpub2 & Hsorted2 & Hbounds2).
  { eapply Forall_impl; [exact Hlevel |]. intros fr Hfr. simpl in Hfr. lia. }
  exists (frs1 ++ frs2). split.
  { rewrite Hpub2, Hpub1, map_app, app_assoc. reflexivity. }
  split.
  - rewrite map_app.
    apply StronglySorted_app_2; [| exact Hsorted1 | exact Hsorted2].
    intros x1 x2 Hx1 Hx2.
    apply list_elem_of_fmap in Hx1 as (y1 & -> & Hy1).
    apply list_elem_of_fmap in Hx2 as (y2 & -> & Hy2).
    rewrite Forall_forall in Hlevel, Hbounds2.
    rewrite (Hlevel y1 Hy1). specialize (Hbounds2 y2 Hy2). simpl in Hbounds2.
    lia.
  - apply Forall_app. split; [exact Hbounds1 |].
    eapply Forall_impl; [exact Hbounds2 |]. intros fr Hfr. simpl in Hfr. lia.
Qed.

(** X11. Over a store that answers a lookup at a height with frames of
    that height, and away from the top of the [uint64] range, the frames
    published for a request come level by level: their heights never
    decrease along the log (breadth first), each lies strictly above
    [from] and at most at the clamped [to], hence at most 32 above
    [from]. *)
Theorem X11_frames_are_published_in_ascending_height (fuel : nat)
    (st : Engine) (peerID address : bytes) (any : Any)
    (request : ClockFramesRequest) (base : ClockFrame) :
  0 <= FromFrameNumber request ->
  FromFrameNumber request + 33 < two64 ->
  0 <= ToFrameNumber request < two64 ->
  peerID <> GetPeerID ->
  UnmarshalTo_ClockFramesRequest any = Val request ->
  GetDataClockFrame (req_Filter request) (FromFrameNumber request)
    = Val base ->
  exists frs : list ClockFrame,
    published (handleClockFramesRequest fuel peerID address any st).2
      = published st ++ map (framePost (filter st ++ peerID)) frs
    /\ StronglySorted Z.le (map FrameNumber frs)
    /\ Forall (fun fr =>
                 FromFrameNumber request < FrameNumber fr
                 /\ FrameNumber fr
                    <= clampTo (FromFrameNumber request)
                         (ToFrameNumber request)
                 /\ FrameNumber fr <= FromFrameNumber request + 32) frs.
Proof.
  intros Hfrom Hroom Hto Hpeer Hreq Hbase.
  rewrite (handleClockFramesRequest_resolved fuel st peerID address any
             request base Hpeer Hreq Hbase).
  pose proof (clampTo_forward (FromFrameNumber request)
                (ToFrameNumber request) Hfrom Hroom Hto) as Hclamp.
  destruct store_keeps_heights as [Hfinal _].
  pose proof (Hfinal _ _ _ Hbase) as Hheight.
  destruct (scanLoop_levels (filter st ++ peerID) (FromFrameNumber request)
              (clampTo (FromFrameNumber request) (ToFrameNumber request))
              Hfrom ltac:(lia) ltac:(unfold two64 in *; lia) ltac:(lia)
              fuel 1 [base] false [base]
              (set_subscriptions
                 (subscriptions st ++ [filter st ++ peerID]) st)
              ltac:(lia))
    as (frs & Hpub & Hsorted & Hbounds).
  { constructor; [lia | constructor]. }
  exists frs. split; [exact Hpub |]. split; [exact Hsorted |].
  eapply Forall_impl; [exact Hbounds |]. intros fr Hfr. simpl in Hfr. lia.
Qed.

End RangeLevels.

(** A fixture store answers at each height with frames of that height as
    soon as its candidate table does. *)
Lemma fixture_node_keeps_heights (response : ClockFramesResponse)
    (request : ClockFramesRequest) (finalized : list ClockFrame)
    (candidatesAt : Z -> Iterator) (publishes : option nat) :
  (forall (n : Z) (fr : ClockFrame),
      Val fr ∈ candidatesAt n -> FrameNumber fr = n) ->
  @storeKeepsHeights
    (Fixture.node response request finalized candidatesAt publishes).
Proof.
  intros Htable. split.
  - intros flt n fr Hfr. simpl in Hfr. unfold Fixture.lookupFrame in Hfr.
    destruct (List.find _ finalized) as [found |] eqn:Hfind;
      [| discriminate].
    injection Hfr as ->. apply find_some in Hfind as [_ Height].
    apply Z.eqb_eq in Height. exact Height.
  - intros flt selector n it fr Hit Hin. simpl in Hit.
    injection Hit as <-. exact (Htable n fr Hin).
Qed.

Lemma branching_table_keeps_heights (n : Z) (fr : ClockFrame) :
  Val fr ∈ (if n =? 12 then
              [Val (Fixture.bareFrame 12 [Byte.x0a]);
               Val (Fixture.bareFrame 12 [Byte.x0b])]
            else if n =? 13 then [Val (Fixture.bareFrame 13 [Byte.x0a])]
            else [] : Iterator) ->
  FrameNumber fr = n.
Proof.
  intros Hin.
  destruct (n =? 12) eqn:H12;
    [apply Z.eqb_eq in H12
    | destruct (n =? 13) eqn:H13; [apply Z.eqb_eq in H13 |]];
    repeat (apply elem_of_cons in Hin as [Hin | Hin];
            [injection Hin as ->; simpl; lia |]);
    apply elem_of_nil in Hin; destruct Hin.
Qed.

Lemma X11_witness :
  exists frs : list ClockFrame,
    published Scenario.branchingRun.2
      = map (framePost (filter Fixture.engine0 ++ Fixture.peer1)) frs
    /\ StronglySorted Z.le (map FrameNumber frs)
    /\ Forall (fun fr =>
                 10 < FrameNumber fr
                 /\ FrameNumber fr <= clampTo 10 0
                 /\ FrameNumber fr <= 10 + 32) frs.
Proof.
  apply (@X11_frames_are_published_in_ascending_height Fixture.frameOps
           Scenario.branchingNode
           (fixture_node_keeps_heights _ _ _ _ _
              branching_table_keeps_heights)
           40 Fixture.engine0 Fixture.peer1 []
           Fixture.anyMsg (Fixture.rangeRequest 10 0)
           (Fixture.bareFrame 10 [])).
  - simpl. lia.
  - vm_compute. reflexivity.
  - vm_compute. split; [discriminate | reflexivity].
  - vm_compute. discriminate.
  - reflexivity.
  - reflexivity.
Defined.

(** ** The range server on a chain without forks *)



(** ** The router [handleSync] *)

Lemma wrap_err {A} (ctx : string) (m : M A) (st : Engine) (e : error) :
  (wrap ctx m st).1 = Err e -> exists cause, e = ErrWrap cause ctx.
Proof.
  unfold wrap. destruct (m st) as [[a | e' | msg |] st']; simpl;
    intros Herr; try discriminate.
  injection Herr as <-. exists e'. reflexivity.
Qed.

Section RouterProperties.

Context `{FrameOps} `{Crypto} `{Node} `{Router}.

(** X13. Whatever the message and whatever the five handlers do, an error
    that [handleSync] returns is wrapped with the context "handle sync":
    no decoder or handler error leaves the router bare. *)
Theorem X13_router_errors_are_wrapped (fuel : nat)
    (message : PubSubMessage) (st : Engine) (e : error) :
  (handleSync fuel message st).1 = Err e ->
  exists cause : error, e = ErrWrap cause "handle sync".
Proof.
  unfold handleSync.
  destruct (bytes_Equal (msg_From message) GetPeerID);
    [unfold ret; simpl; discriminate |].
  unfold bind, try, ret, throw.
  destruct (proto_Unmarshal_Message (msg_Data message)) as [msg | e1];
    [| simpl; intros Herr; injection Herr as <-; eexists; reflexivity].
  destruct (proto_Unmarshal_Any (env_Payload msg)) as [any | e2];
    [| simpl; intros Herr; injection Herr as <-; eexists; reflexivity].
  repeat (destruct (String.eqb (any_TypeUrl any) _);
          [apply wrap_err |]).
  simpl. discriminate.
Qed.

(** X14. [handleSync] drops a message, returning nil and leaving the
    engine as it was, when the message comes from the node itself (its
    data is then not even decoded), and when it decodes to a payload whose
    type URL is none of the five the switch routes. *)
Theorem X14_router_drops_own_and_unrouted_messages (fuel : nat)
    (message : PubSubMessage) (st : Engine) :
  msg_From message = GetPeerID
  \/ (exists (msg : Envelope) (any : Any),
        proto_Unmarshal_Message (msg_Data message) = Val msg
        /\ proto_Unmarshal_Any (env_Payload msg) = Val any
        /\ any_TypeUrl any <> ClockFrameType
        /\ any_TypeUrl any <> ClockFramesResponseType
        /\ any_TypeUrl any <> ClockFramesRequestType
        /\ any_TypeUrl any <> ProvingKeyAnnouncementType
        /\ any_TypeUrl any <> KeyBundleAnnouncementType) ->
  handleSync fuel message st = (Ok tt, st).
Proof.
  intros Hdrop. unfold handleSync, bytes_Equal.
  destruct Hdrop as [Hself | (msg & any & Hmsg & Hany & T1 & T2 & T3 & T4 & T5)].
  - rewrite bool_decide_eq_true_2 by exact Hself. reflexivity.
  - destruct (bool_decide (msg_From message = GetPeerID)); [reflexivity |].
    unfold bind. rewrite Hmsg. simpl. rewrite Hany. simpl.
    apply String.eqb_neq in T1, T2, T3, T4, T5.
    rewrite T1, T2, T3, T4, T5. reflexivity.
Qed.

(** X15. Routed through [handleSync], a [ClockFramesResponse] changes
    nothing and returns nil unless it comes from the peer the engine is
    syncing with: the gate of the response handler holds at the entry
    point. *)
Theorem X15_routed_response_off_target_is_dropped (fuel : nat)
    (message : PubSubMessage) (st : Engine) (msg : Envelope) (any : Any) :
  ClockFrameType <> ClockFramesResponseType ->
  proto_Unmarshal_Message (msg_Data message) = Val msg ->
  proto_Unmarshal_Any (env_Payload msg) = Val any ->
  any_TypeUrl any = ClockFramesResponseType ->
  msg_From message <> syncingTarget st ->
  handleSync fuel message st = (Ok tt, st).
Proof.
  intros Hdistinct Hmsg Hany Htype Hoff. unfold handleSync.
  destruct (bytes_Equal (msg_From message) GetPeerID) eqn:Hself;
    [reflexivity |].
  unfold bind. rewrite Hmsg. simpl. rewrite Hany. simpl.
  rewrite Htype.
  assert (Hfirst : String.eqb ClockFramesResponseType ClockFrameType = false)
    by (apply String.eqb_neq; congruence).
  rewrite Hfirst, String.eqb_refl.
  unfold wrap, handleClockFramesResponse, bind, get.
  rewrite Hself. unfold bytes_Equal.
  rewrite bool_decide_eq_false_2 by exact Hoff. reflexivity.
Qed.

End RouterProperties.

Lemma X13_witness :
  exists cause : error,
    ErrWrap (ErrExternal 2) "handle sync" = ErrWrap cause "handle sync".
Proof.
  apply (@X13_router_errors_are_wrapped Fixture.frameOps Fixture.crypto
           Fixture.mixedNode Scenario.router 40 Scenario.garbledMessage
           Fixture.engine0 (ErrWrap (ErrExternal 2) "handle sync")).
  vm_compute. reflexivity.
Defined.

Lemma X14_witness :
  Scenario.sync Scenario.unknownMessage = (Ok tt, Fixture.engine0).
Proof.
  apply (@X14_router_drops_own_and_unrouted_messages Fixture.frameOps
           Fixture.crypto Fixture.mixedNode Scenario.router 40
           Scenario.unknownMessage Fixture.engine0).
  right.
  exists {| env_Address := []; env_Payload := [Byte.x09] |},
         {| any_TypeUrl := "Unknown"; any_Value := [Byte.x09] |}.
  repeat split; try reflexivity; simpl; discriminate.
Defined.

Lemma X15_witness :
  Scenario.sync Scenario.strayResponse = (Ok tt, Fixture.engine0).
Proof.
  apply (@X15_routed_response_off_target_is_dropped Fixture.frameOps
           Fixture.crypto Fixture.mixedNode Scenario.router 40
           Scenario.strayResponse Fixture.engine0
           {| env_Address := []; env_Payload := [Byte.x02] |}
           {| any_TypeUrl := "ClockFramesResponse";
              any_Value := [Byte.x02] |}).
  - simpl. discriminate.
  - reflexivity.
  - reflexivity.
  - reflexivity.
  - vm_compute. discriminate.
Defined.

(** The same response from the syncing target is taken up: the engine
    ends as after the batch of [Fixture.mixedNode], and the error of the
    batch comes back wrapped once more. *)
Example routed_response_on_target :
  let routed :=
    @handleSync Fixture.frameOps Fixture.crypto Fixture.mixedNode
      Scenario.router 40
      {| msg_Data := [Byte.x02]; msg_From := Fixture.peer1;
         msg_Signature := [] |}
      Fixture.engine0 in
  routed.2 = Fixture.mixedRun.2
  /\ exists cause, Fixture.mixedRun.1 = Err cause
                   /\ routed.1 = Err (ErrWrap cause "handle sync").
Proof.
  split; [vm_compute; reflexivity |].
  eexists. split; vm_compute; reflexivity.
Qed.

(** ** The node: construction and start *)

Section NodeLifecycle.

Context `{App.Engines}.

(** X16. A node that [newNode] built has a consensus engine (a nil engine
    is refused), and [Start] on it panics with the error of the engine's
    start, before any registration, or else leaves as the node's engine
    the started engine with the ceremony engine registered once at frame
    0, or untouched when no ceremony engine was given. *)
Theorem X16_start_registers_the_ceremony_engine_once
    (ceremonyExecutionEngine : option App.ExecutionEngine)
    (engine_ : option App.ConsensusEngine) (n : App.Node) :
  App.newNode ceremonyExecutionEngine engine_ = Val n ->
  match engine_ with
  | None => False
  | Some eng =>
      App.Start n =
        match App.engine_Start eng with
        | (Some err, _) => App.Panics err
        | (None, started) =>
            App.Returns
              {| App.execEngines := App.execEngines n;
                 App.engine :=
                   match ceremonyExecutionEngine with
                   | Some c => App.RegisterExecutor c 0 started
                   | None => started
                   end |}
        end
  end.
Proof.
  unfold App.newNode. destruct engine_ as [eng |]; [| discriminate].
  intros Hnode. injection Hnode as <-.
  unfold App.Start. simpl.
  destruct (App.engine_Start eng) as [[err |] started]; [reflexivity |].
  destruct ceremonyExecutionEngine as [c |].
  - rewrite insert_empty, map_to_list_singleton. reflexivity.
  - rewrite map_to_list_empty. reflexivity.
Qed.

End NodeLifecycle.

Lemma X16_witness :
  @App.Start Scenario.engines Scenario.freshNode
  = App.Returns Scenario.startedNode.
Proof.
  apply (@X16_start_registers_the_ceremony_engine_once Scenario.engines
           (Some "ceremony") (Some ([] : list Scenario.call))
           Scenario.freshNode).
  reflexivity.
Defined.

(** ** The range server beyond the limit *)

Lemma clampTo_cut (from to : Z) :
  0 <= from -> from + 33 < two64 -> 0 <= to < two64 ->
  to = 0 \/ to < from \/ from + 32 < to ->
  clampTo from to = from + 31.
Proof.
  intros Hfrom Hroom Hto Hcut. unfold clampTo.
  rewrite (u64_small (from + 31)) by (unfold two64 in *; lia).
  destruct (to =? 0) eqn:Hzero; [reflexivity |].
  apply Z.eqb_neq in Hzero. simpl.
  destruct (u64 (to - from) >? 32) eqn:Hwide; [reflexivity |].
  rewrite Z.gtb_ltb in Hwide. apply Z.ltb_ge in Hwide.
  unfold u64, two64 in *. Z.div_mod_to_equations. lia.
Qed.



(** At the limit, a request for [10, 42] obtains all 32 frames; one frame
    wider, it obtains 31. *)
Example limit_is_not_monotone :
  length (published Scenario.limitRun.2) = 32%nat
  /\ length (published Scenario.wideRun.2) = 31%nat.
Proof. split; vm_compute; reflexivity. Qed.
